(** * Authorization core of the ERP admin dashboard

    A shallow embedding of the role/permission services, the permission
    cache, the audit-log recorder and its middleware (Laravel backend), and
    of the permission checks of the dashboard's auth store (TypeScript),
    followed by the properties established about them.

    Conventions of the embedding:
    - a PHP array used as a map is an ordered association list with string
      keys ([php_array]); lookups and writes follow the first binding;
    - the relational store is a record of tables ([Database]); pivot tables
      are lists of id pairs;
    - code that can throw returns an [outcome], which carries the database
      as it is when the exception leaves the function, so that
      [DB_transaction] can model the rollback;
    - the cache facade is a finite map from cache keys to entries with an
      expiry time; time is an integer number of seconds supplied by the
      caller of each cache read. *)

From Stdlib Require Import ZArith Lia Ascii.
From stdpp Require Import gmap strings list pretty.

Local Open Scope Z_scope.

(** ** PHP values and arrays *)

Module Php.

#[warnings="-register-all"] Inductive value : Type :=
| VNull
| VBool (b : bool)
| VInt (z : Z)
| VStr (s : string)
| VArr (a : list (string * value)).

Abbreviation php_array := (list (string * value)).

(** [$a[$k]] read: the binding of the first occurrence of the key. *)
Fixpoint array_get (a : php_array) (k : string) : option value :=
  match a with
  | [] => None
  | (k', v) :: a' => if decide (k' = k) then Some v else array_get a' k
  end.

Definition is_null (v : value) : bool :=
  match v with VNull => true | _ => false end.

(** [isset($a[$k])]: the key exists and its value is not null. *)
Definition isset (a : php_array) (k : string) : bool :=
  match array_get a k with
  | Some v => negb (is_null v)
  | None => false
  end.

(** [$a[$k] = $v]: overwrite in place, or append a new binding. *)
Fixpoint array_set (a : php_array) (k : string) (v : value) : php_array :=
  match a with
  | [] => [(k, v)]
  | (k', v') :: a' =>
      if decide (k' = k) then (k, v) :: a' else (k', v') :: array_set a' k v
  end.

Definition array_keys (a : php_array) : list string := a.*1.

(** [in_array($needle, $haystack)] on a list of strings.  Permission names
    are dotted identifiers, on which PHP's loose comparison is string
    equality. *)
Definition in_array (needle : string) (haystack : list string) : bool :=
  bool_decide (needle ∈ haystack).

(** [str_starts_with($haystack, $needle)]. *)
Fixpoint str_starts_with (haystack needle : string) {struct needle} : bool :=
  match needle, haystack with
  | EmptyString, _ => true
  | String _ _, EmptyString => false
  | String c needle', String h haystack' =>
      if decide (h = c) then str_starts_with haystack' needle' else false
  end.

(** [empty($s)] on a string: the empty string and ["0"] are empty. *)
Definition empty_string (s : string) : bool :=
  bool_decide (s = "") || bool_decide (s = "0").

(** PHP truthiness, as tested by [if ($v)] and, negated, by [empty($v)]. *)
Definition truthy (v : value) : bool :=
  match v with
  | VNull => false
  | VBool b => b
  | VInt z => negb (bool_decide (z = 0))
  | VStr s => negb (empty_string s)
  | VArr a => negb (bool_decide (a = []))
  end.

(** [$a[$k] ?? $rest]: the binding when it is set and not null. *)
Definition coalesce (o : option value) (rest : option value) : option value :=
  match o with
  | Some VNull | None => rest
  | Some v => Some v
  end.

End Php.
Export Php.

(** ** The relational store *)

Module Store.

Record Permission : Type := {
  perm_id : Z;
  perm_name : string;
  perm_description : option string;
  perm_module : string;
}.

Record Role : Type := {
  role_id : Z;
  role_name : string;
  role_description : option string;
  role_is_system : bool;
}.

Record User : Type := {
  user_id : Z;
  user_name : string;
  user_email : string;
  user_password : string;
  user_avatar : option string;
  user_is_active : bool;
  user_email_verified_at : option Z;
  user_deleted_at : option Z;
}.

Record AuditLog : Type := {
  al_user_id : option Z;
  al_action : string;
  al_resource : string;
  al_resource_id : option Z;
  al_old_values : option php_array;
  al_new_values : option php_array;
  al_ip_address : option string;
  al_user_agent : option string;
}.

(** Pivot rows are [(related id, parent id)]: [role_user] holds
    [(role_id, user_id)] and [permission_role] holds
    [(permission_id, role_id)]. *)
Record Database : Type := {
  permissions : list Permission;
  roles : list Role;
  users : list User;
  role_user : list (Z * Z);
  permission_role : list (Z * Z);
  audit_logs : list AuditLog;
  roles_next_id : Z;
}.

#[global] Instance Permission_eq_dec : EqDecision Permission.
Proof. solve_decision. Defined.
#[global] Instance Role_eq_dec : EqDecision Role.
Proof. solve_decision. Defined.

Definition set_roles (rs : list Role) (next : Z) (d : Database) : Database :=
  {| permissions := permissions d; roles := rs; users := users d;
     role_user := role_user d; permission_role := permission_role d;
     audit_logs := audit_logs d; roles_next_id := next |}.

Definition set_users (us : list User) (d : Database) : Database :=
  {| permissions := permissions d; roles := roles d; users := us;
     role_user := role_user d; permission_role := permission_role d;
     audit_logs := audit_logs d; roles_next_id := roles_next_id d |}.

Definition set_role_user (rows : list (Z * Z)) (d : Database) : Database :=
  {| permissions := permissions d; roles := roles d; users := users d;
     role_user := rows; permission_role := permission_role d;
     audit_logs := audit_logs d; roles_next_id := roles_next_id d |}.

Definition set_permission_role (rows : list (Z * Z)) (d : Database) : Database :=
  {| permissions := permissions d; roles := roles d; users := users d;
     role_user := role_user d; permission_role := rows;
     audit_logs := audit_logs d; roles_next_id := roles_next_id d |}.

Definition set_audit_logs (ls : list AuditLog) (d : Database) : Database :=
  {| permissions := permissions d; roles := roles d; users := users d;
     role_user := role_user d; permission_role := permission_role d;
     audit_logs := ls; roles_next_id := roles_next_id d |}.

(** *** Exceptions and outcomes *)

Inductive Exception : Type :=
| ModelNotFoundException
| ValidationException (errors : list (string * list string)).

(** The result of a call that may throw.  Both cases carry the database
    as the call leaves it. *)
Inductive outcome (A : Type) : Type :=
| Return (a : A) (d : Database)
| Throw (e : Exception) (d : Database).
Arguments Return {A} a d.
Arguments Throw {A} e d.

Definition M (A : Type) : Type := Database → outcome A.

Definition ret {A} (a : A) : M A := λ d, Return a d.
Definition throw {A} (e : Exception) : M A := λ d, Throw e d.
Definition bind {A B} (m : M A) (k : A → M B) : M B :=
  λ d, match m d with
       | Return a d' => k a d'
       | Throw e d' => Throw e d'
       end.
Definition get_db : M Database := λ d, Return d d.
Definition modify_db (f : Database → Database) : M () := λ d, Return () (f d).

(** [DB::transaction(closure)]: commit on return, roll back to the state
    at entry when the closure throws, and re-throw. *)
Definition DB_transaction {A} (closure : M A) : M A :=
  λ d, match closure d with
       | Return a d' => Return a d'
       | Throw e _ => Throw e d
       end.

(** *** Relations *)

(** [$parent->relation()->sync($ids)] on a pivot table: rows of the parent
    whose related id is not listed are detached, listed ids not yet
    attached are attached (each once, in order of first occurrence). *)
Fixpoint unique_ids (seen : list Z) (ids : list Z) : list Z :=
  match ids with
  | [] => []
  | i :: ids' =>
      if decide (i ∈ seen) then unique_ids seen ids'
      else i :: unique_ids (i :: seen) ids'
  end.

Definition related_ids (rows : list (Z * Z)) (parent : Z) : list Z :=
  (filter (λ row, row.2 = parent) rows).*1.

Definition sync (rows : list (Z * Z)) (parent : Z) (ids : list Z) : list (Z * Z) :=
  let current := related_ids rows parent in
  filter (λ row, row.2 ≠ parent ∨ row.1 ∈ ids) rows
  ++ ((λ i, (i, parent)) <$> filter (λ i, i ∉ current) (unique_ids [] ids)).

(** [$parent->relation()->detach()]: drop every pivot row of the parent. *)
Definition detach_all (rows : list (Z * Z)) (parent : Z) : list (Z * Z) :=
  filter (λ row, row.2 ≠ parent) rows.

(** [$user->roles()->get()]: the join of [roles] with the user's pivot rows. *)
Definition user_roles (d : Database) (uid : Z) : list Role :=
  r ← roles d;
  row ← role_user d;
  if decide (row = (role_id r, uid)) then [r] else [].

(** The [permissions] relation of a role, as loaded by [with('permissions')]. *)
Definition role_permissions (d : Database) (rid : Z) : list Permission :=
  p ← permissions d;
  row ← permission_role d;
  if decide (row = (perm_id p, rid)) then [p] else [].

(** A soft-deleted user: hidden from every query on the [User] model. *)
Definition trashed (u : User) : bool := bool_decide (is_Some (user_deleted_at u)).

(** [$role->users()]: the join of [users] with the role's pivot rows. *)
Definition role_users (d : Database) (rid : Z) : list User :=
  u ← users d;
  row ← role_user d;
  if decide (row = (rid, user_id u) ∧ trashed u = false) then [u] else [].

(** [Collection::unique('id')]: keep the first item of each id. *)
Fixpoint unique_by_id (seen : list Z) (ps : list Permission) : list Permission :=
  match ps with
  | [] => []
  | p :: ps' =>
      if decide (perm_id p ∈ seen) then unique_by_id seen ps'
      else p :: unique_by_id (perm_id p :: seen) ps'
  end.

End Store.
Export Store.

(** ** The cache facade *)

Module Cache.

Record entry : Type := {
  entry_value : list string;
  entry_expires : Z;
}.

Abbreviation store := (gmap string entry).

(** A key is served only while its entry has not expired. *)
Definition get (c : store) (now : Z) (key : string) : option (list string) :=
  match c !! key with
  | Some e => if decide (now < entry_expires e) then Some (entry_value e) else None
  | None => None
  end.

(** [Cache::remember($key, $ttl, $closure)]. *)
Definition remember (c : store) (now : Z) (key : string) (ttl : Z)
    (closure : () → list string) : list string * store :=
  match get c now key with
  | Some v => (v, c)
  | None =>
      let v := closure () in
      (v, <[key := {| entry_value := v; entry_expires := now + ttl |}]> c)
  end.

(** [Cache::forget($key)]. *)
Definition forget (c : store) (key : string) : store := delete key c.

End Cache.

(** The state a request handler runs against. *)
Record World : Type := {
  db : Database;
  cache : Cache.store;
}.

(** ** Modules\System\Services\PermissionService *)

Module PermissionService.

Definition CACHE_TTL : Z := 3600.

Definition getUserPermissionsCacheKey (userId : Z) : string :=
  "user_permissions:" +:+ pretty userId.

(** [$user->roles()->with('permissions')->get()->pluck('permissions')
     ->flatten()->unique('id')->values()]. *)
Definition getUserPermissions (d : Database) (user : Z) : list Permission :=
  unique_by_id [] (r ← user_roles d user; role_permissions d (role_id r)).

Definition userHasPermission (now : Z) (user : Z) (permission : string)
    (w : World) : bool * World :=
  let cacheKey := getUserPermissionsCacheKey user in
  let '(perms, c) :=
    Cache.remember (cache w) now cacheKey CACHE_TTL
      (λ _, perm_name <$> getUserPermissions (db w) user) in
  (in_array permission perms, {| db := db w; cache := c |}).

(** The boolean variant of the id check (the role service has a throwing
    one): as many permission rows match as ids were passed. *)
Definition validatePermissionIds (d : Database) (permissionIds : list Z) : bool :=
  match permissionIds with
  | [] => true
  | _ =>
      let existingCount :=
        length (filter (λ p, perm_id p ∈ permissionIds) (permissions d)) in
      bool_decide (existingCount = length permissionIds)
  end.

Definition clearUserPermissionsCache (userId : Z) (w : World) : World :=
  {| db := db w; cache := Cache.forget (cache w) (getUserPermissionsCacheKey userId) |}.

(** The user ids are read from the pivot table at the time of the call. *)
Definition clearRoleUsersPermissionsCache (roleId : Z) (w : World) : World :=
  let userIds := (filter (λ row, row.1 = roleId) (role_user (db w))).*2 in
  foldl (λ w' userId, clearUserPermissionsCache userId w') w userIds.

End PermissionService.

(** ** App\Models\User *)

Module UserModel.

(** [getAllPermissions]: the same pipeline without the re-indexing. *)
Definition getAllPermissions (d : Database) (user : Z) : list Permission :=
  unique_by_id [] (r ← user_roles d user; role_permissions d (role_id r)).

(** [$this->getAllPermissions()->contains('name', $permission)]. *)
Definition hasPermission (d : Database) (user : Z) (permission : string) : bool :=
  bool_decide (Exists (λ p, perm_name p = permission) (getAllPermissions d user)).

End UserModel.

(** ** Running services against the store *)

#[global] Instance M_ret : MRet M := @ret.
#[global] Instance M_bind : MBind M := λ A B k m, bind m k.

(** ** Modules\System\Services\RoleService *)

Module RoleService.

(** The validated payload of a role request. *)
Record RoleData : Type := {
  rd_name : string;
  rd_description : option string;
  rd_is_system : option bool;
  rd_permission_ids : option (list Z);
}.

Definition duplicate_name_error : Exception :=
  ValidationException [("name", ["A role with this name already exists."])].

Definition assigned_users_error : Exception :=
  ValidationException [("role", ["Cannot delete role that has assigned users."])].

Definition invalid_permission_ids_error : Exception :=
  ValidationException [("permission_ids", ["One or more permission IDs are invalid."])].

(** [Role::findOrFail($id)]. *)
Definition findOrFail (id : Z) : M Role :=
  λ d, match List.find (λ r, bool_decide (role_id r = id)) (roles d) with
       | Some r => Return r d
       | None => Throw ModelNotFoundException d
       end.

(** [Role::create([...])]: the row gets the next auto-increment id. *)
Definition Role_create (name : string) (description : option string)
    (is_system : bool) : M Role :=
  λ d, let role := {| role_id := roles_next_id d; role_name := name;
                      role_description := description;
                      role_is_system := is_system |} in
       Return role (set_roles (roles d ++ [role]) (roles_next_id d + 1) d).

Definition validatePermissionIds (permissionIds : list Z) : M bool :=
  match permissionIds with
  | [] => ret true
  | _ =>
      d ← get_db;
      let existingCount :=
        length (filter (λ p, perm_id p ∈ permissionIds) (permissions d)) in
      if decide (existingCount ≠ length permissionIds)
      then throw invalid_permission_ids_error
      else ret true
  end.

Definition sync_permissions (roleId : Z) (permissionIds : list Z) : M () :=
  modify_db (λ d, set_permission_role (sync (permission_role d) roleId permissionIds) d).

(** [$role->load('permissions')]: the role with its relation read back. *)
Definition load_permissions (role : Role) : M (Role * list Permission) :=
  d ← get_db; ret (role, role_permissions d (role_id role)).

Definition createRole (data : RoleData) : M (Role * list Permission) :=
  d ← get_db;
  if decide (Exists (λ r, role_name r = rd_name data) (roles d))
  then throw duplicate_name_error
  else
    DB_transaction (
      role ← Role_create (rd_name data) (rd_description data)
                         (default false (rd_is_system data));
      _ ← match rd_permission_ids data with
          | Some (i :: ids) =>
              _ ← validatePermissionIds (i :: ids);
              sync_permissions (role_id role) (i :: ids)
          | _ => ret ()
          end;
      load_permissions role).

Definition hasAssignedUsers (roleId : Z) : M bool :=
  _ ← findOrFail roleId;
  d ← get_db;
  ret (bool_decide (0 < length (role_users d roleId))%nat).

Definition deleteRole (id : Z) : M bool :=
  role ← findOrFail id;
  assigned ← hasAssignedUsers id;
  if assigned : bool
  then throw assigned_users_error
  else
    DB_transaction (
      _ ← modify_db (λ d, set_permission_role
                            (detach_all (permission_role d) (role_id role)) d);
      _ ← modify_db (λ d, set_roles
                            (filter (λ r, role_id r ≠ role_id role) (roles d))
                            (roles_next_id d) d);
      ret true).

Definition assignPermissions (roleId : Z) (permissionIds : list Z)
    : M (Role * list Permission) :=
  role ← findOrFail roleId;
  _ ← validatePermissionIds permissionIds;
  _ ← sync_permissions roleId permissionIds;
  fresh ← findOrFail roleId;
  load_permissions fresh.


(** The validated payload of a role update: every field may be absent, and
    [description] may be present and null. *)
Record RoleUpdate : Type := {
  ru_name : option string;
  ru_description : option (option string);
  ru_is_system : option bool;
}.

(** The row after [$role->update($updateData)]. *)
Definition updated_role (role : Role) (data : RoleUpdate) : Role :=
  {| role_id := role_id role;
     role_name := default (role_name role) (ru_name data);
     role_description := default (role_description role) (ru_description data);
     role_is_system := default (role_is_system role) (ru_is_system data) |}.

Definition write_role (role : Role) : M () :=
  modify_db (λ d, set_roles
    ((λ r, if decide (role_id r = role_id role) then role else r) <$> roles d)
    (roles_next_id d) d).

Definition updateRole (id : Z) (data : RoleUpdate) : M (Role * list Permission) :=
  role ← findOrFail id;
  d ← get_db;
  _ ← match ru_name data with
      | Some name =>
          if negb (empty_string name) && negb (bool_decide (name = role_name role))
          then
            if decide (Exists (λ r, role_name r = name ∧ role_id r ≠ id) (roles d))
            then throw duplicate_name_error
            else ret ()
          else ret ()
      | None => ret ()
      end;
  DB_transaction (
    _ ← write_role (updated_role role data);
    fresh ← findOrFail id;
    load_permissions fresh).

End RoleService.

(** ** Modules\System\Services\UserService *)

Module UserService.

(** The validated payload of a user update.  [ud_avatar] distinguishes an
    absent key from a key set to null. *)
Record UserData : Type := {
  ud_name : option string;
  ud_email : option string;
  ud_password : option string;
  ud_avatar : option (option string);
  ud_is_active : option bool;
  ud_role_ids : option (list Z);
}.

Definition email_taken_error : Exception :=
  ValidationException [("email", ["The email has already been taken."])].

(** [User::findOrFail($id)]; soft-deleted rows are out of scope. *)
Definition findOrFail (id : Z) : M User :=
  λ d, match List.find (λ u, bool_decide (user_id u = id) && negb (trashed u))
                       (users d) with
       | Some u => Return u d
       | None => Throw ModelNotFoundException d
       end.

Definition sync_roles (userId : Z) (roleIds : list Z) : M () :=
  modify_db (λ d, set_role_user (sync (role_user d) userId roleIds) d).

(** [$user->load('roles')]. *)
Definition load_roles (user : User) : M (User * list Role) :=
  d ← get_db; ret (user, user_roles d (user_id user)).

Section WithHash.

(** [Hash::make], the framework's password hasher. *)
Variable Hash_make : string → string.

(** The row after [$user->update($updateData)], where [$updateData] holds
    the fields the payload sets. *)
Definition updated_row (user : User) (data : UserData) : User :=
  {| user_id := user_id user;
     user_name := default (user_name user) (ud_name data);
     user_email := default (user_email user) (ud_email data);
     user_password := default (user_password user) (Hash_make <$> ud_password data);
     user_avatar := default (user_avatar user) (ud_avatar data);
     user_is_active := default (user_is_active user) (ud_is_active data);
     user_email_verified_at := user_email_verified_at user;
     user_deleted_at := user_deleted_at user |}.

Definition write_row (user : User) : M () :=
  modify_db (λ d, set_users
    ((λ u, if decide (user_id u = user_id user) then user else u) <$> users d) d).

Definition updateUser (id : Z) (data : UserData) : M (User * list Role) :=
  user ← findOrFail id;
  d ← get_db;
  _ ← match ud_email data with
      | Some email =>
          if negb (empty_string email) && negb (bool_decide (email = user_email user))
          then
            if decide (Exists (λ u, user_email u = email ∧ user_id u ≠ id
                                     ∧ trashed u = false) (users d))
            then throw email_taken_error
            else ret ()
          else ret ()
      | None => ret ()
      end;
  DB_transaction (
    let fresh := updated_row user data in
    _ ← write_row fresh;
    _ ← match ud_role_ids data with
        | Some roleIds => sync_roles (user_id user) roleIds
        | None => ret ()
        end;
    load_roles fresh).

(** The validated payload of a user creation. *)
Record UserCreate : Type := {
  uc_name : string;
  uc_email : string;
  uc_password : string;
  uc_avatar : option string;
  uc_is_active : option bool;
  uc_role_ids : option (list Z);
  uc_email_verified : option bool;
}.

(** The id the database engine gives to the next row of [users], and the
    clock read by [now()]. *)
Variable users_next_id : Database → Z.
Variable now : Z.

(** [User::create([...])]. *)
Definition User_create (data : UserCreate) : M User :=
  λ d, let user :=
         {| user_id := users_next_id d;
            user_name := uc_name data;
            user_email := uc_email data;
            user_password := Hash_make (uc_password data);
            user_avatar := uc_avatar data;
            user_is_active := default true (uc_is_active data);
            user_email_verified_at := None;
            user_deleted_at := None |} in
       Return user (set_users (users d ++ [user]) d).

Definition mark_verified (user : User) : User :=
  {| user_id := user_id user; user_name := user_name user;
     user_email := user_email user; user_password := user_password user;
     user_avatar := user_avatar user; user_is_active := user_is_active user;
     user_email_verified_at := Some now;
     user_deleted_at := user_deleted_at user |}.

Definition createUser (data : UserCreate) : M (User * list Role) :=
  d ← get_db;
  if decide (Exists (λ u, user_email u = uc_email data ∧ trashed u = false) (users d))
  then throw email_taken_error
  else
    DB_transaction (
      user ← User_create data;
      _ ← match uc_role_ids data with
          | Some (i :: ids) => sync_roles (user_id user) (i :: ids)
          | _ => ret ()
          end;
      user ← match uc_email_verified data with
             | Some true =>
                 _ ← write_row (mark_verified user); ret (mark_verified user)
             | _ => ret user
             end;
      load_roles user).


End WithHash.

Definition assignRoles (userId : Z) (roleIds : list Z) : M (User * list Role) :=
  user ← findOrFail userId;
  _ ← sync_roles (user_id user) roleIds;
  load_roles user.

End UserService.

(** ** HTTP messages *)

Module Http.

(** The parts of [Illuminate\Http\Request] the core reads.  [req_user] is
    the id of the authenticated principal, [req_route] the route
    parameters, [req_all] the input bag returned by [all()]. *)
Record Request : Type := {
  req_user : option Z;
  req_method : string;
  req_path : string;
  req_route : php_array;
  req_all : php_array;
  req_ip : option string;
  req_user_agent : option string;
}.

(** A response: its status code and its body decoded as JSON ([None] for
    an empty or undecodable body). *)
Record Response : Type := {
  resp_status : Z;
  resp_content : option value;
}.

Definition json (body : php_array) (status : Z) : Response :=
  {| resp_status := status; resp_content := Some (VArr body) |}.

(** A PHP list as the array with keys 0, 1, ... *)
Definition json_list (vs : list value) : value :=
  VArr (imap (λ i v, (pretty i, v)) vs).

Definition json_option_string (o : option string) : value :=
  match o with Some s => VStr s | None => VNull end.

Definition permission_json (p : Permission) : value :=
  VArr [("id", VInt (perm_id p)); ("name", VStr (perm_name p));
        ("description", json_option_string (perm_description p));
        ("module", VStr (perm_module p))].

Definition role_attributes (r : Role) : php_array :=
  [("id", VInt (role_id r)); ("name", VStr (role_name r));
   ("description", json_option_string (role_description r));
   ("is_system", VBool (role_is_system r))].

(** A role serialised with its loaded [permissions] relation. *)
Definition role_json (r : Role * list Permission) : value :=
  VArr (role_attributes r.1 ++ [("permissions", json_list (permission_json <$> r.2))]).

Definition errors_json (errors : list (string * list string)) : value :=
  VArr ((λ e, (e.1, json_list (VStr <$> e.2))) <$> errors).

(** [$request->segments()]: the path split at slashes, empty parts dropped. *)
Fixpoint explode_path (current : string) (path : string) : list string :=
  match path with
  | EmptyString => if decide (current = "") then [] else [current]
  | String c rest =>
      if decide (c = "/"%char)
      then (if decide (current = "") then [] else [current]) ++ explode_path "" rest
      else explode_path (current +:+ String c "") rest
  end.

Definition segments (request : Request) : list string :=
  explode_path "" (req_path request).

End Http.
Export Http.

(** ** Modules\System\Http\Controllers\RoleController *)

Module RoleController.

Definition not_found : Response :=
  json [("success", VBool false); ("message", VStr "Role not found.");
        ("error_code", VStr "NOT_FOUND")] 404.

Definition validation_failed (errors : list (string * list string)) : Response :=
  json [("success", VBool false); ("message", VStr "Validation failed");
        ("errors", errors_json errors);
        ("error_code", VStr "VALIDATION_ERROR")] 422.

Definition with_db (w : World) (d : Database) : World :=
  {| db := d; cache := cache w |}.

Definition store (data : RoleService.RoleData) (w : World) : Response * World :=
  match RoleService.createRole data (db w) with
  | Return role d =>
      (json [("success", VBool true);
             ("message", VStr "Role created successfully.");
             ("data", VArr [("role", role_json role)])] 201, with_db w d)
  | Throw (ValidationException errors) d => (validation_failed errors, with_db w d)
  | Throw ModelNotFoundException d => (not_found, with_db w d)
  end.

Definition destroy (role : Z) (w : World) : Response * World :=
  match RoleService.deleteRole role (db w) with
  | Return _ d =>
      (json [("success", VBool true);
             ("message", VStr "Role deleted successfully.")] 200, with_db w d)
  | Throw ModelNotFoundException d => (not_found, with_db w d)
  | Throw (ValidationException errors) d =>
      let message :=
        match List.find (λ e, bool_decide (e.1 = "role")) errors with
        | Some (_, m :: _) => m
        | _ => "Cannot delete role."
        end in
      (json [("success", VBool false); ("message", VStr message);
             ("error_code", VStr "VALIDATION_ERROR")] 422, with_db w d)
  end.

(** The request rules of [assignPermissions]: the list is required (an empty
    array does not pass) and every id must be a row of [permissions].  The
    result lists the failing fields; the framework's message texts are not
    modelled. *)
Definition permission_ids_rules (d : Database) (permissionIds : list Z)
    : list (string * list string) :=
  (if decide (permissionIds = []) then [("permission_ids", [])] else [])
  ++ (if decide (Forall (λ i, Exists (λ p, perm_id p = i) (permissions d)) permissionIds)
      then []
      else [("permission_ids.*", [])]).

(** [assignPermissions]; the two inputs are the request's [permissions] and
    [permission_ids] fields, either of which may be absent. *)
Definition assignPermissions (input_permissions input_permission_ids : option (list Z))
    (role : Z) (w : World) : Response * World :=
  let permissionIds :=
    default (default [] input_permission_ids) input_permissions in
  match permission_ids_rules (db w) permissionIds with
  | e :: es => (validation_failed (e :: es), w)
  | [] =>
      match RoleService.assignPermissions role permissionIds (db w) with
      | Return roleData d =>
          let w' := PermissionService.clearRoleUsersPermissionsCache role (with_db w d) in
          (json [("success", VBool true);
                 ("message", VStr "Permissions assigned successfully.");
                 ("data", VArr [("role", role_json roleData)])] 200, w')
      | Throw ModelNotFoundException d => (not_found, with_db w d)
      | Throw (ValidationException errors) d => (validation_failed errors, with_db w d)
      end
  end.


(** [update]: the role's members lose their cache entries after the update. *)
Definition update (data : RoleService.RoleUpdate) (role : Z) (w : World)
    : Response * World :=
  match RoleService.updateRole role data (db w) with
  | Return roleData d =>
      let w' := PermissionService.clearRoleUsersPermissionsCache role (with_db w d) in
      (json [("success", VBool true);
             ("message", VStr "Role updated successfully.");
             ("data", VArr [("role", role_json roleData)])] 200, w')
  | Throw ModelNotFoundException d => (not_found, with_db w d)
  | Throw (ValidationException errors) d => (validation_failed errors, with_db w d)
  end.

End RoleController.

(** ** Modules\System\Http\Controllers\UserController *)

Module UserController.

Definition user_json (u : User * list Role) : value :=
  VArr [("id", VInt (user_id u.1)); ("name", VStr (user_name u.1));
        ("email", VStr (user_email u.1));
        ("avatar", json_option_string (user_avatar u.1));
        ("is_active", VBool (user_is_active u.1));
        ("roles", json_list ((λ r, VArr (role_attributes r)) <$> u.2))].

Definition not_found : Response :=
  json [("success", VBool false); ("message", VStr "User not found.");
        ("error_code", VStr "NOT_FOUND")] 404.

Section WithHash.

Variable Hash_make : string → string.

Definition update (data : UserService.UserData) (user : Z) (w : World)
    : Response * World :=
  match UserService.updateUser Hash_make user data (db w) with
  | Return userData d =>
      (json [("success", VBool true);
             ("message", VStr "User updated successfully.");
             ("data", VArr [("user", user_json userData)])] 200,
       RoleController.with_db w d)
  | Throw ModelNotFoundException d => (not_found, RoleController.with_db w d)
  | Throw (ValidationException errors) d =>
      (RoleController.validation_failed errors, RoleController.with_db w d)
  end.

End WithHash.

(** The request rules of [assignRoles], as for [permission_ids] above. *)
Definition role_ids_rules (d : Database) (role_ids : list Z)
    : list (string * list string) :=
  (if decide (role_ids = []) then [("role_ids", [])] else [])
  ++ (if decide (Forall (λ i, Exists (λ r, role_id r = i) (roles d)) role_ids)
      then []
      else [("role_ids.*", [])]).

Definition assignRoles (role_ids : list Z) (user : Z) (w : World) : Response * World :=
  match role_ids_rules (db w) role_ids with
  | e :: es => (RoleController.validation_failed (e :: es), w)
  | [] =>
      match UserService.assignRoles user role_ids (db w) with
      | Return userData d =>
          (json [("success", VBool true);
                 ("message", VStr "Roles assigned successfully.");
                 ("data", VArr [("user", user_json userData)])] 200,
           RoleController.with_db w d)
      | Throw ModelNotFoundException d => (not_found, RoleController.with_db w d)
      | Throw (ValidationException errors) d =>
          (RoleController.validation_failed errors, RoleController.with_db w d)
      end
  end.

End UserController.

(** ** Modules\System\Services\AuditLogService *)

Module AuditLogService.

(** The [$data] argument of [log]. *)
Record LogData : Type := {
  ld_user_id : option Z;
  ld_old_values : option php_array;
  ld_new_values : option php_array;
  ld_ip_address : option string;
  ld_user_agent : option string;
}.

Definition REDACTED : value := VStr "[REDACTED]".

Definition sensitiveFields : list string :=
  ["password"; "password_confirmation"; "current_password"; "new_password";
   "token"; "api_token"; "remember_token"; "secret"].

(** One turn of the [foreach] over the sensitive fields. *)
Definition redact_field (values : php_array) (field : string) : php_array :=
  if isset values field then array_set values field REDACTED else values.

Definition sanitizeValues (values : php_array) : php_array :=
  foldl redact_field values sensitiveFields.

Definition or_else {A} (o fallback : option A) : option A :=
  match o with Some a => Some a | None => fallback end.

Section WithRequest.

(** The request being served: [auth()] and [request()] read from it. *)
Variable current : Request.

(** [AuditLog::create([...])]: one row appended. *)
Definition log (action resource : string) (resourceId : option Z)
    (data : LogData) : M AuditLog :=
  λ d, let entry :=
         {| al_user_id := or_else (ld_user_id data) (req_user current);
            al_action := action;
            al_resource := resource;
            al_resource_id := resourceId;
            al_old_values := ld_old_values data;
            al_new_values := ld_new_values data;
            al_ip_address := or_else (ld_ip_address data) (req_ip current);
            al_user_agent := or_else (ld_user_agent data) (req_user_agent current) |} in
       Return entry (set_audit_logs (audit_logs d ++ [entry]) d).

(** [$request?->ip() ?? request()->ip()] and its user-agent twin. *)
Definition ip_of (request : option Request) : option string :=
  or_else (request ≫= req_ip) (req_ip current).

Definition user_agent_of (request : option Request) : option string :=
  or_else (request ≫= req_user_agent) (req_user_agent current).

Definition logLogin (userId : Z) (request : option Request) : M AuditLog :=
  log "login" "auth" None
    {| ld_user_id := Some userId; ld_old_values := None; ld_new_values := None;
       ld_ip_address := ip_of request; ld_user_agent := user_agent_of request |}.

Definition logLogout (userId : Z) (request : option Request) : M AuditLog :=
  log "logout" "auth" None
    {| ld_user_id := Some userId; ld_old_values := None; ld_new_values := None;
       ld_ip_address := ip_of request; ld_user_agent := user_agent_of request |}.

Definition logCreate (resource : string) (resourceId : Z) (newValues : php_array)
    (request : option Request) : M AuditLog :=
  log "create" resource (Some resourceId)
    {| ld_user_id := None; ld_old_values := None;
       ld_new_values := Some (sanitizeValues newValues);
       ld_ip_address := ip_of request; ld_user_agent := user_agent_of request |}.

Definition logUpdate (resource : string) (resourceId : Z)
    (oldValues newValues : php_array) (request : option Request) : M AuditLog :=
  log "update" resource (Some resourceId)
    {| ld_user_id := None;
       ld_old_values := Some (sanitizeValues oldValues);
       ld_new_values := Some (sanitizeValues newValues);
       ld_ip_address := ip_of request; ld_user_agent := user_agent_of request |}.

Definition logDelete (resource : string) (resourceId : Z) (oldValues : php_array)
    (request : option Request) : M AuditLog :=
  log "delete" resource (Some resourceId)
    {| ld_user_id := None;
       ld_old_values := Some (sanitizeValues oldValues); ld_new_values := None;
       ld_ip_address := ip_of request; ld_user_agent := user_agent_of request |}.

End WithRequest.

End AuditLogService.

(** ** Modules\System\Http\Middleware\AuditLogger *)

Module AuditLogger.

Definition loggableMethods : list string := ["POST"; "PUT"; "PATCH"; "DELETE"].

Definition excludedRoutes : list string :=
  ["api/auth/login"; "api/auth/logout"; "api/auth/register"].

Definition shouldLog (request : Request) (response : Response) : bool :=
  if negb (bool_decide (is_Some (req_user request))) then false
  else if negb (bool_decide (req_method request ∈ loggableMethods)) then false
  else if existsb (λ excludedRoute, str_starts_with (req_path request) excludedRoute)
                  excludedRoutes then false
  else if bool_decide (resp_status response < 200 ∨ resp_status response >= 300)
  then false
  else true.

(** The ASCII lower-casing of [strtolower]. *)
Definition lower_char (c : ascii) : ascii :=
  let n := nat_of_ascii c in
  if bool_decide (65 ≤ n ≤ 90)%nat then ascii_of_nat (n + 32) else c.

Fixpoint strtolower (s : string) : string :=
  match s with
  | EmptyString => EmptyString
  | String c rest => String (lower_char c) (strtolower rest)
  end.

Definition determineAction (request : Request) : string :=
  let method := req_method request in
  if decide (method = "POST") then "create"
  else if decide (method = "PUT" ∨ method = "PATCH") then "update"
  else if decide (method = "DELETE") then "delete"
  else strtolower method.

Definition determineResource (request : Request) : string :=
  let segments :=
    match segments request with
    | first :: rest => if decide (first = "api") then rest else first :: rest
    | [] => []
    end in
  match segments with
  | first :: _ => first
  | [] => "unknown"
  end.

(** The middleware keeps its own copy of the field list and of the loop. *)
Definition sensitiveFields : list string :=
  ["password"; "password_confirmation"; "current_password"; "new_password";
   "token"; "api_token"; "remember_token"; "secret"].

Definition sanitizeRequestData (data : php_array) : php_array :=
  foldl (λ data field,
           if isset data field then array_set data field (VStr "[REDACTED]") else data)
        data sensitiveFields.

(** [$data[$k]] on a decoded body that may not be an array. *)
Definition dig (v : option value) (k : string) : option value :=
  match v with
  | Some (VArr a) => array_get a k
  | _ => None
  end.

Section WithIntval.

(** PHP's [(int)] cast. *)
Variable intval : value → Z.

(** The first id that is set among the candidate places of the body. *)
Fixpoint first_set_id (candidates : list (option value)) : option Z :=
  match candidates with
  | [] => None
  | Some v :: rest => if is_null v then first_set_id rest else Some (intval v)
  | None :: rest => first_set_id rest
  end.

Definition determineResourceId (request : Request) (response : Response) : option Z :=
  let route := req_route request in
  let routeId :=
    coalesce (array_get route "id")
      (coalesce (array_get route "user") (array_get route "role")) in
  let fromResponse :=
    if decide (req_method request = "POST")
    then
      let data := dig (resp_content response) "data" in
      first_set_id (dig data "id"
                    :: ((λ key, dig (dig data key) "id")
                        <$> ["user"; "role"; "permission"; "setting"]))
    else None in
  match routeId with
  | Some v => if truthy v then Some (intval v) else fromResponse
  | None => fromResponse
  end.

Definition logAction (request : Request) (response : Response) : M AuditLog :=
  let action := determineAction request in
  let resource := determineResource request in
  let resourceId := determineResourceId request response in
  AuditLogService.log request action resource resourceId
    {| AuditLogService.ld_user_id := None;
       AuditLogService.ld_old_values := None;
       AuditLogService.ld_new_values := Some (sanitizeRequestData (req_all request));
       AuditLogService.ld_ip_address := req_ip request;
       AuditLogService.ld_user_agent := req_user_agent request |}.

(** [handle]: run the rest of the pipeline, then log if the outcome
    qualifies.  [next] is the downstream handler. *)
Definition handle (request : Request) (next : Request → World → Response * World)
    (w : World) : Response * World :=
  let '(response, w1) := next request w in
  if shouldLog request response
  then
    match logAction request response (db w1) with
    | Return _ d | Throw _ d => (response, RoleController.with_db w1 d)
    end
  else (response, w1).

End WithIntval.

End AuditLogger.

(** ** Dashboard: the auth store and its guards (TypeScript) *)

Module AuthStore.

(** The part of the store's state the permission checks read. *)
Record AuthState : Type := {
  permissions : list string;
}.

(** [Array.prototype.includes] on strings. *)
Definition includes (xs : list string) (x : string) : bool := bool_decide (x ∈ xs).

Definition hasPermission (s : AuthState) (permission : string) : bool :=
  includes (permissions s) permission.

(** [permissions.some(p => userPermissions.includes(p))]. *)
Definition hasAnyPermission (s : AuthState) (required : list string) : bool :=
  let userPermissions := permissions s in
  existsb (λ p, includes userPermissions p) required.

(** [permissions.every(p => userPermissions.includes(p))]. *)
Definition hasAllPermissions (s : AuthState) (required : list string) : bool :=
  let userPermissions := permissions s in
  forallb (λ p, includes userPermissions p) required.

(** The access decision shared by [ProtectedRoute] and [Can]: a single
    permission wins, then a non-empty list, and with neither the content is
    shown.  A JavaScript string is truthy unless it is empty. *)
Definition hasAccess (s : AuthState) (permission : option string)
    (required : option (list string)) (requireAll : bool) : bool :=
  let byList :=
    match required with
    | Some (q :: qs) =>
        if requireAll then hasAllPermissions s (q :: qs)
        else hasAnyPermission s (q :: qs)
    | _ => true
    end in
  match permission with
  | Some p => if decide (p ≠ "") then hasPermission s p else byList
  | None => byList
  end.

Definition checkAnyPermission (s : AuthState) (required : list string) : bool :=
  hasAnyPermission s required.

Definition checkAllPermissions (s : AuthState) (required : list string) : bool :=
  hasAllPermissions s required.

End AuthStore.

(** ** Modules\System\Http\Middleware\CheckPermission *)

Module CheckPermission.

Definition unauthenticated : Response :=
  json [("success", VBool false); ("message", VStr "Unauthenticated.");
        ("error_code", VStr "UNAUTHENTICATED")] 401.

Definition forbidden : Response :=
  json [("success", VBool false);
        ("message", VStr "Forbidden. You do not have permission to perform this action.");
        ("error_code", VStr "FORBIDDEN")] 403.

(** [handle]; [now] is the time at which the cache is read. *)
Definition handle (now : Z) (request : Request)
    (next : Request → World → Response * World) (permission : string)
    (w : World) : Response * World :=
  match req_user request with
  | None => (unauthenticated, w)
  | Some user =>
      let '(granted, w1) := PermissionService.userHasPermission now user permission w in
      if granted then next request w1 else (forbidden, w1)
  end.

End CheckPermission.

(** ** Modules\System\Http\Controllers\AuthController and the store's login *)

Module Login.


(** The part of the store's state the checks read, after [login] has stored
    the response. *)
Definition logged_in (permissions : list string) : AuthStore.AuthState :=
  {| AuthStore.permissions := permissions |}.

(** The same part after [logout]. *)
Definition logged_out : AuthStore.AuthState :=
  {| AuthStore.permissions := [] |}.

End Login.

(** ** Dashboard: the sidebar (TypeScript) *)

Module Sidebar.

Record NavItem : Type := {
  label : string;
  icon : string;
  href : string;
  permission : option string;
}.

Definition defaultNavItems : list NavItem :=
  [ {| label := "Dashboard"; icon := "dashboard"; href := "/dashboard";
       permission := None |};
    {| label := "Users"; icon := "users"; href := "/users";
       permission := Some "users.view" |};
    {| label := "Roles"; icon := "roles"; href := "/roles";
       permission := Some "roles.view" |};
    {| label := "Permissions"; icon := "permissions"; href := "/permissions";
       permission := Some "permissions.view" |};
    {| label := "Audit Logs"; icon := "audit-logs"; href := "/audit-logs";
       permission := Some "audit_logs.view" |};
    {| label := "Settings"; icon := "settings"; href := "/settings";
       permission := Some "settings.view" |} ].

Definition shown (hasPermission : string → bool) (item : NavItem) : bool :=
  match permission item with
  | None => true
  | Some p => hasPermission p
  end.

Definition filterNavItemsByPermission (items : list NavItem)
    (hasPermission : string → bool) : list NavItem :=
  List.filter (shown hasPermission) items.

End Sidebar.

(** ** Specification predicates and example data *)

(** What the audit trail holds for a snapshot [a]: the same keys in the
    same order, and at every key the original value, except that a value
    that is set (not null) at a sensitive key is replaced by the marker. *)
Definition redacted_from (a a' : php_array) : Prop :=
  array_keys a' = array_keys a ∧
  ∀ k v, array_get a k = Some v →
         array_get a' k =
         Some (if bool_decide (k ∈ AuditLogService.sensitiveFields) && negb (is_null v)
               then AuditLogService.REDACTED else v).

(** The request and the store used in the examples below. *)
Definition example_request : Request :=
  {| req_user := Some 1; req_method := "PUT"; req_path := "api/users/7";
     req_route := [("user", VStr "7")]; req_all := [];
     req_ip := Some "10.0.0.1"; req_user_agent := Some "curl" |}.

Definition empty_database : Database :=
  {| permissions := []; roles := []; users := []; role_user := [];
     permission_role := []; audit_logs := []; roles_next_id := 1 |}.


(** A snapshot with a set secret, a null token and a nested password. *)
Definition example_snapshot : php_array :=
  [("name", VStr "Ada");
   ("password", VStr "hunter2");
   ("token", VNull);
   ("profile", VArr [("password", VStr "nested"); ("secret", VStr "s3")])].

(** A small installation: three permissions; a system role with all of
    them, an editor role with one, a system role nobody holds; one user
    with two roles and one with none. *)
Definition example_database : Database :=
  {| permissions :=
       [ {| perm_id := 1; perm_name := "users.view"; perm_description := None;
            perm_module := "users" |};
         {| perm_id := 2; perm_name := "users.edit"; perm_description := None;
            perm_module := "users" |};
         {| perm_id := 3; perm_name := "roles.view"; perm_description := None;
            perm_module := "roles" |} ];
     roles :=
       [ {| role_id := 1; role_name := "Administrator";
            role_description := Some "Full system access"; role_is_system := true |};
         {| role_id := 2; role_name := "Editor";
            role_description := None; role_is_system := false |};
         {| role_id := 3; role_name := "Accountant";
            role_description := Some "Accounting access"; role_is_system := true |} ];
     users :=
       [ {| user_id := 7; user_name := "Ada"; user_email := "ada@example.com";
            user_password := "$2y$ada"; user_avatar := None; user_is_active := true;
            user_email_verified_at := None; user_deleted_at := None |};
         {| user_id := 8; user_name := "Bob"; user_email := "bob@example.com";
            user_password := "$2y$bob"; user_avatar := None; user_is_active := true;
            user_email_verified_at := None; user_deleted_at := None |} ];
     role_user := [(1, 7); (2, 7)];
     permission_role := [(1, 1); (2, 1); (3, 1); (2, 2)];
     audit_logs := [];
     roles_next_id := 4 |}.

(** An [(int)] cast for the examples: JSON numbers are kept, anything else
    counts as 0. *)
Definition example_intval (v : value) : Z :=
  match v with VInt z => z | _ => 0 end.

Definition example_world : World :=
  {| db := example_database; cache := ∅ |}.

(** Downstream handlers: one whose mutation is rejected, one that succeeds. *)
Definition rejecting_next (request : Request) (w : World) : Response * World :=
  (RoleController.validation_failed [("email", ["The email has already been taken."])], w).

Definition accepting_next (request : Request) (w : World) : Response * World :=
  (json [("success", VBool true); ("message", VStr "User updated successfully.")] 200, w).

(** A world whose cache holds an unexpired entry for user 7, resolved from
    the store as it is, and one for user 8, left over from a time when that
    user held the editor role. *)
Definition stale_world : World :=
  {| db := example_database;
     cache :=
       <[PermissionService.getUserPermissionsCacheKey 7 :=
           {| Cache.entry_value := ["users.view"; "users.edit"; "roles.view"];
              Cache.entry_expires := 5000 |}]>
       (<[PermissionService.getUserPermissionsCacheKey 8 :=
           {| Cache.entry_value := ["users.edit"];
              Cache.entry_expires := 5000 |}]> ∅) |}.

(** The ids of a submitted list that are not rows of [permissions]. *)
Definition invalid_ids (d : Database) (permissionIds : list Z) : list Z :=
  filter (λ i, ¬ Exists (λ p, perm_id p = i) (permissions d)) permissionIds.

(** Payloads used in the examples. *)
Definition guest_role (permissionIds : list Z) : RoleService.RoleData :=
  {| RoleService.rd_name := "Guest"; RoleService.rd_description := None;
     RoleService.rd_is_system := None;
     RoleService.rd_permission_ids := Some permissionIds |}.

Definition detach_all_roles : UserService.UserData :=
  {| UserService.ud_name := None; UserService.ud_email := None;
     UserService.ud_password := None; UserService.ud_avatar := None;
     UserService.ud_is_active := None; UserService.ud_role_ids := Some [] |}.

Definition example_hash (password : string) : string := "$2y$" +:+ password.

Definition user_without_permissions : AuthStore.AuthState :=
  {| AuthStore.permissions := [] |}.

(** Role names identify roles: two rows with the same name have the same id. *)
Definition unique_role_names (d : Database) : Prop :=
  ∀ r r', r ∈ roles d → r' ∈ roles d → role_name r = role_name r' →
          role_id r = role_id r'.

(** Emails identify the users that are not soft-deleted. *)
Definition unique_live_emails (d : Database) : Prop :=
  ∀ u u', u ∈ users d → u' ∈ users d → trashed u = false → trashed u' = false →
          user_email u = user_email u' → user_id u = user_id u'.

(** The rename conflict [updateRole] looks for: the payload names the role
    anew, with a name PHP does not treat as empty, and another role has
    that name. *)
Definition rename_conflict (d : Database) (id : Z) (role : Role)
    (data : RoleService.RoleUpdate) : Prop :=
  match RoleService.ru_name data with
  | Some name =>
      empty_string name = false ∧ name ≠ role_name role
      ∧ Exists (λ r, role_name r = name ∧ role_id r ≠ id) (roles d)
  | None => False
  end.

#[global] Instance rename_conflict_dec d id role data :
  Decision (rename_conflict d id role data).
Proof. unfold rename_conflict. destruct (RoleService.ru_name data); apply _. Defined.

(** The email conflict [updateUser] looks for: the payload changes the
    email to one PHP does not treat as empty and another user that is not
    soft-deleted has it. *)
Definition email_conflict (d : Database) (id : Z) (user : User)
    (data : UserService.UserData) : Prop :=
  match UserService.ud_email data with
  | Some email =>
      empty_string email = false ∧ email ≠ user_email user
      ∧ Exists (λ u, user_email u = email ∧ user_id u ≠ id ∧ trashed u = false)
               (users d)
  | None => False
  end.

#[global] Instance email_conflict_dec d id user data :
  Decision (email_conflict d id user data).
Proof. unfold email_conflict. destruct (UserService.ud_email data); apply _. Defined.

(** The store after a successful [updateUser]. *)
Definition store_after_update (d : Database) (id : Z) (fresh : User)
    (data : UserService.UserData) : Database :=
  let d1 := set_users ((λ u, if decide (user_id u = id) then fresh else u) <$> users d) d in
  match UserService.ud_role_ids data with
  | Some roleIds => set_role_user (sync (role_user d) id roleIds) d1
  | None => d1
  end.

(** An id allocator and a clock for the examples. *)
Definition example_next_user_id (d : Database) : Z :=
  1 + foldr Z.max 0 (user_id <$> users d).

(** Requests for the examples: user 7 deleting role 3, and the same request
    without a principal. *)
Definition ada_request : Request :=
  {| req_user := Some 7; req_method := "DELETE"; req_path := "api/roles/3";
     req_route := [("role", VStr "3")];
     req_all := [("password", VStr "hunter2"); ("reason", VStr "cleanup")];
     req_ip := Some "10.0.0.7"; req_user_agent := Some "firefox" |}.

Definition anonymous_request : Request :=
  {| req_user := None; req_method := "DELETE"; req_path := "api/roles/3";
     req_route := [("role", VStr "3")]; req_all := [];
     req_ip := Some "10.0.0.9"; req_user_agent := None |}.

(** The downstream handler of [DELETE /api/roles/{role}]. *)
Definition destroy_next (request : Request) (w : World) : Response * World :=
  RoleController.destroy 3 w.

(** The characters of a string, and strings without a slash. *)
Fixpoint chars (s : string) : list ascii :=
  match s with
  | EmptyString => []
  | String c rest => c :: chars rest
  end.

Definition slash_free (s : string) : Prop := "/"%char ∉ chars s.
(** * Properties *)

(** ** PHP arrays *)

Lemma array_get_set (a : php_array) (k k' : string) (v : value) :
  array_get (array_set a k v) k' = if decide (k = k') then Some v else array_get a k'.
Proof.
  induction a as [|[k0 v0] a IH]; simpl.
  - repeat case_decide; congruence.
  - destruct (decide (k0 = k)) as [->|Hne]; simpl.
    + repeat case_decide; congruence.
    + rewrite IH. repeat case_decide; congruence.
Qed.

Lemma array_keys_set_present (a : php_array) (k : string) (v : value) :
  is_Some (array_get a k) → array_keys (array_set a k v) = array_keys a.
Proof.
  unfold array_keys. induction a as [|[k0 v0] a IH]; simpl.
  - intros [? ?]; discriminate.
  - destruct (decide (k0 = k)) as [->|Hne]; simpl; [done|].
    intros Hs. f_equal. by apply IH.
Qed.

Lemma isset_is_Some (a : php_array) (k : string) :
  isset a k = true → is_Some (array_get a k).
Proof. unfold isset. destruct (array_get a k); [eauto | discriminate]. Qed.

Lemma isset_spec (a : php_array) (k : string) :
  isset a k = true ↔ ∃ v, array_get a k = Some v ∧ is_null v = false.
Proof.
  unfold isset. destruct (array_get a k) as [v|].
  - rewrite negb_true_iff. split; [eauto | intros (v' & [= <-] & ?); done].
  - split; [discriminate | intros (v' & [=] & _)].
Qed.

(** ** Redaction *)

Section Redaction.

Import AuditLogService.

Lemma redact_field_get (a : php_array) (field k : string) :
  array_get (redact_field a field) k =
  if decide (field = k)
  then (if isset a field then Some REDACTED else array_get a k)
  else array_get a k.
Proof.
  unfold redact_field. destruct (isset a field).
  - apply array_get_set.
  - by case_decide.
Qed.

Lemma redact_field_isset (a : php_array) (field k : string) :
  isset (redact_field a field) k = isset a k.
Proof.
  destruct (decide (field = k)) as [->|Hne].
  - destruct (isset a k) eqn:Hset.
    + unfold isset. rewrite redact_field_get, decide_True, Hset by done. done.
    + unfold redact_field. by rewrite Hset.
  - unfold isset. by rewrite redact_field_get, decide_False.
Qed.

Lemma redact_field_keys (a : php_array) (field : string) :
  array_keys (redact_field a field) = array_keys a.
Proof.
  unfold redact_field. destruct (isset a field) eqn:Hset; [|done].
  by apply array_keys_set_present, isset_is_Some.
Qed.

Lemma redact_fields_get (fields : list string) (a : php_array) (k : string) :
  array_get (foldl redact_field a fields) k =
  if bool_decide (k ∈ fields) && isset a k then Some REDACTED else array_get a k.
Proof.
  revert a. induction fields as [|f fields IH]; intros a; simpl; [done|].
  rewrite IH, redact_field_isset, redact_field_get.
  destruct (decide (f = k)) as [->|Hne].
  - rewrite (bool_decide_eq_true_2 (k ∈ k :: fields)) by apply list_elem_of_here.
    destruct (isset a k); simpl; [|by rewrite andb_false_r].
    by destruct (bool_decide (k ∈ fields)).
  - rewrite (bool_decide_ext (k ∈ f :: fields) (k ∈ fields)); [done|].
    rewrite elem_of_cons. split; [intros [Heq|Hin]; [congruence|done] | by right].
Qed.

Lemma redact_fields_keys (fields : list string) (a : php_array) :
  array_keys (foldl redact_field a fields) = array_keys a.
Proof.
  revert a. induction fields as [|f fields IH]; intros a; simpl; [done|].
  by rewrite IH, redact_field_keys.
Qed.

Lemma sanitizeValues_redacted_from (a : php_array) :
  redacted_from a (sanitizeValues a).
Proof.
  split; [apply redact_fields_keys|].
  intros k v Hk. unfold sanitizeValues. rewrite redact_fields_get.
  unfold isset. rewrite Hk. by destruct (_ && _).
Qed.

End Redaction.

(** ** The audit-log recorder *)

Section Recorder.

Import AuditLogService.

Lemma log_appends (current : Request) (action resource : string)
    (resourceId : option Z) (data : LogData) (d : Database) :
  ∃ entry,
    log current action resource resourceId data d
    = Return entry (set_audit_logs (audit_logs d ++ [entry]) d)
    ∧ al_action entry = action
    ∧ al_old_values entry = ld_old_values data
    ∧ al_new_values entry = ld_new_values data.
Proof. eexists. split; [reflexivity|]. done. Qed.

(** C5 (as amended).  An entry recorded through [logUpdate], [logCreate] or
    [logDelete] is appended to the audit trail with its old and its new
    snapshot sanitised independently of each other: every value that is set
    (not null) at one of the eight sensitive keys is replaced by the marker
    ['[REDACTED]'], and every other binding, including a null at a sensitive
    key, keeps its value.  The redaction is done by these wrappers: [log]
    itself stores the snapshots it is handed. *)
Theorem recorder_redacts_set_sensitive_values (current : Request)
    (resource : string) (resourceId : Z) (oldValues newValues : php_array)
    (request : option Request) (d : Database) :
  (∃ entry old' new',
     logUpdate current resource resourceId oldValues newValues request d
     = Return entry (set_audit_logs (audit_logs d ++ [entry]) d)
     ∧ al_old_values entry = Some old' ∧ redacted_from oldValues old'
     ∧ al_new_values entry = Some new' ∧ redacted_from newValues new')
  ∧ (∃ entry new',
       logCreate current resource resourceId newValues request d
       = Return entry (set_audit_logs (audit_logs d ++ [entry]) d)
       ∧ al_old_values entry = None
       ∧ al_new_values entry = Some new' ∧ redacted_from newValues new')
  ∧ (∃ entry old',
       logDelete current resource resourceId oldValues request d
       = Return entry (set_audit_logs (audit_logs d ++ [entry]) d)
       ∧ al_old_values entry = Some old' ∧ redacted_from oldValues old'
       ∧ al_new_values entry = None)
  ∧ (∀ action resourceId' data, ∃ entry,
       log current action resource resourceId' data d
       = Return entry (set_audit_logs (audit_logs d ++ [entry]) d)
       ∧ al_old_values entry = ld_old_values data
       ∧ al_new_values entry = ld_new_values data).
Proof.
  split; [|split; [|split]].
  - do 3 eexists. split; [reflexivity|]. simpl.
    repeat split; try apply sanitizeValues_redacted_from.
  - do 2 eexists. split; [reflexivity|]. simpl.
    repeat split; try apply sanitizeValues_redacted_from.
  - do 2 eexists. split; [reflexivity|]. simpl.
    repeat split; try apply sanitizeValues_redacted_from.
  - intros action resourceId' data.
    destruct (log_appends current action resource resourceId' data d)
      as (entry & Hlog & _ & Hold & Hnew).
    eauto.
Qed.

(** C5 (as stated) fails: a null stored at the sensitive key [token] is a
    value present at that key, and [logUpdate] persists it as it is. *)
Lemma recorder_keeps_null_at_sensitive_key :
  ¬ (∀ (newValues : php_array) (k : string) (v : value) (entry : AuditLog)
       (d' : Database),
       k ∈ sensitiveFields →
       array_get newValues k = Some v →
       logUpdate example_request "users" 7 [] newValues None empty_database
       = Return entry d' →
       (al_new_values entry ≫= λ a, array_get a k) = Some REDACTED).
Proof.
  intros Hall.
  specialize (Hall [("token", VNull); ("name", VStr "new")] "token" VNull
                _ _ ltac:(by apply (bool_decide_unpack _)) eq_refl eq_refl).
  discriminate Hall.
Qed.

(** The scenario of the specification: a password is replaced, a name is
    kept. *)
Example logUpdate_password_scenario :
  ∃ entry d',
    logUpdate example_request "users" 7 []
      [("password", VStr "secret123"); ("name", VStr "new")] None empty_database
    = Return entry d'
    ∧ al_new_values entry
      = Some [("password", VStr "[REDACTED]"); ("name", VStr "new")].
Proof. do 2 eexists. split; reflexivity. Qed.

End Recorder.

(** ** Redaction is shallow and skips nulls *)

Section Shallow.

Import AuditLogService.

Lemma sanitizeRequestData_eq (data : php_array) :
  AuditLogger.sanitizeRequestData data = sanitizeValues data.
Proof. reflexivity. Qed.

(** C9.  Sanitising a value map looks at its top-level bindings only: the
    keys and their order are kept; a binding is replaced by ['[REDACTED]']
    exactly when its key is one of the eight sensitive keys and its value is
    set (not null); a null at a sensitive key stays null; a sub-map stored
    under any other key comes back as it was, sensitive keys inside it
    included.  The middleware's [sanitizeRequestData] computes the same
    function. *)
Theorem sanitizeValues_shallow_and_skips_null (values : php_array) :
  array_keys (sanitizeValues values) = array_keys values
  ∧ (∀ k, array_get (sanitizeValues values) k =
          if bool_decide (k ∈ sensitiveFields) && isset values k
          then Some REDACTED else array_get values k)
  ∧ (∀ k, array_get values k = Some VNull →
          array_get (sanitizeValues values) k = Some VNull)
  ∧ (∀ k sub, k ∉ sensitiveFields → array_get values k = Some (VArr sub) →
              array_get (sanitizeValues values) k = Some (VArr sub))
  ∧ AuditLogger.sanitizeRequestData values = sanitizeValues values.
Proof.
  split; [apply redact_fields_keys|].
  split; [intros k; apply redact_fields_get|].
  split; [|split; [|apply sanitizeRequestData_eq]].
  - intros k Hk. unfold sanitizeValues. rewrite redact_fields_get.
    unfold isset. rewrite Hk. simpl. by rewrite andb_false_r.
  - intros k sub Hk Hsub. unfold sanitizeValues. rewrite redact_fields_get.
    by rewrite bool_decide_eq_false_2.
Qed.

Lemma sanitizeValues_shallow_witness :
  array_get (sanitizeValues example_snapshot) "token" = Some VNull
  ∧ array_get (sanitizeValues example_snapshot) "profile"
    = Some (VArr [("password", VStr "nested"); ("secret", VStr "s3")])
  ∧ array_get (sanitizeValues example_snapshot) "password" = Some REDACTED.
Proof.
  destruct (sanitizeValues_shallow_and_skips_null example_snapshot)
    as (_ & Hget & Hnull & Hsub & _).
  split; [apply Hnull; reflexivity|].
  split; [apply Hsub; [apply (bool_decide_unpack _); vm_compute; exact I | reflexivity]|].
  rewrite Hget. reflexivity.
Defined.

End Shallow.

(** ** Relations of the store *)

Lemma elem_of_user_roles (d : Database) (uid : Z) (r : Role) :
  r ∈ user_roles d uid ↔ r ∈ roles d ∧ (role_id r, uid) ∈ role_user d.
Proof.
  unfold user_roles. rewrite list_elem_of_bind. split.
  - intros (r' & Hin & Hr'). apply list_elem_of_bind in Hin as (row & Hin & Hrow).
    case_decide as Heq; [|by destruct (not_elem_of_nil _ Hin)].
    apply list_elem_of_singleton in Hin as ->. by subst row.
  - intros [Hr Hrow]. exists r. split; [|done].
    apply list_elem_of_bind. exists (role_id r, uid). split; [|done].
    rewrite decide_True by done. apply list_elem_of_here.
Qed.

Lemma elem_of_role_permissions (d : Database) (rid : Z) (p : Permission) :
  p ∈ role_permissions d rid
  ↔ p ∈ permissions d ∧ (perm_id p, rid) ∈ permission_role d.
Proof.
  unfold role_permissions. rewrite list_elem_of_bind. split.
  - intros (p' & Hin & Hp'). apply list_elem_of_bind in Hin as (row & Hin & Hrow).
    case_decide as Heq; [|by destruct (not_elem_of_nil _ Hin)].
    apply list_elem_of_singleton in Hin as ->. by subst row.
  - intros [Hp Hrow]. exists p. split; [|done].
    apply list_elem_of_bind. exists (perm_id p, rid). split; [|done].
    rewrite decide_True by done. apply list_elem_of_here.
Qed.

Lemma unique_by_id_elem (seen : list Z) (ps : list Permission) (p : Permission) :
  p ∈ unique_by_id seen ps → p ∈ ps ∧ perm_id p ∉ seen.
Proof.
  revert seen. induction ps as [|q ps IH]; intros seen; simpl.
  - intros H. by destruct (not_elem_of_nil _ H).
  - case_decide as Hseen.
    + intros H. apply IH in H as [? ?]. split; [by right|done].
    + rewrite elem_of_cons. intros [->|H].
      * split; [by left|done].
      * apply IH in H as [? Hn]. split; [by right|].
        intros Hs. apply Hn. by right.
Qed.

Lemma unique_by_id_ids (seen : list Z) (ps : list Permission) (i : Z) :
  i ∈ (perm_id <$> unique_by_id seen ps) ↔ (i ∉ seen) ∧ i ∈ (perm_id <$> ps).
Proof.
  revert seen. induction ps as [|q ps IH]; intros seen; cbn [unique_by_id].
  - rewrite fmap_nil. pose proof (not_elem_of_nil i). tauto.
  - case_decide as Hseen.
    + rewrite IH, fmap_cons, elem_of_cons.
      destruct (decide (i = perm_id q)) as [->|Hne]; tauto.
    + rewrite !fmap_cons, !elem_of_cons, IH, elem_of_cons.
      destruct (decide (i = perm_id q)) as [->|Hne]; tauto.
Qed.

Lemma unique_by_id_NoDup (seen : list Z) (ps : list Permission) :
  NoDup (perm_id <$> unique_by_id seen ps).
Proof.
  revert seen. induction ps as [|q ps IH]; intros seen; cbn [unique_by_id].
  - constructor.
  - case_decide as Hseen; [apply IH|].
    rewrite fmap_cons. constructor; [|apply IH].
    rewrite unique_by_id_ids. intros [Hn _]. apply Hn, list_elem_of_here.
Qed.

Lemma NoDup_fmap_inj_on {A B : Type} (f : A → B) (l : list A) (x y : A) :
  NoDup (f <$> l) → x ∈ l → y ∈ l → f x = f y → x = y.
Proof.
  induction l as [|a l IH]; [intros _ Hx; by destruct (not_elem_of_nil _ Hx)|].
  rewrite fmap_cons, NoDup_cons, !elem_of_cons.
  intros [Ha Hl] [->|Hx] [->|Hy] Heq; [done| | |by apply IH].
  - destruct Ha. rewrite Heq. by apply list_elem_of_fmap_2.
  - destruct Ha. rewrite <- Heq. by apply list_elem_of_fmap_2.
Qed.

(** ** The permission resolver *)

Section Resolver.

Import PermissionService.

(** C6.  The effective permissions of a user are the union of the
    permission sets of the roles attached to the user, collapsed by
    permission id: no id occurs twice, every listed permission belongs to an
    attached role, and every permission id of an attached role is listed.
    When ids identify rows of [permissions], membership in the result is
    membership in the union.  A user without role rows has no effective
    permission, and the model method [getAllPermissions] computes the same
    list. *)
Theorem getUserPermissions_is_union (d : Database) (user : Z) :
  NoDup (perm_id <$> getUserPermissions d user)
  ∧ (∀ p, p ∈ getUserPermissions d user →
          ∃ r, r ∈ user_roles d user ∧ p ∈ role_permissions d (role_id r))
  ∧ (∀ r p, r ∈ user_roles d user → p ∈ role_permissions d (role_id r) →
            perm_id p ∈ (perm_id <$> getUserPermissions d user))
  ∧ (NoDup (perm_id <$> permissions d) →
     ∀ p, p ∈ getUserPermissions d user
          ↔ ∃ r, r ∈ user_roles d user ∧ p ∈ role_permissions d (role_id r))
  ∧ ((∀ rid, (rid, user) ∉ role_user d) → getUserPermissions d user = [])
  ∧ UserModel.getAllPermissions d user = getUserPermissions d user.
Proof.
  unfold getUserPermissions.
  assert (Hsound : ∀ p,
    p ∈ unique_by_id [] (r ← user_roles d user; role_permissions d (role_id r)) →
    ∃ r, r ∈ user_roles d user ∧ p ∈ role_permissions d (role_id r)).
  { intros p Hp. apply unique_by_id_elem in Hp as [Hp _].
    apply list_elem_of_bind in Hp as (r & Hp & Hr). eauto. }
  assert (Hcomplete : ∀ r p,
    r ∈ user_roles d user → p ∈ role_permissions d (role_id r) →
    perm_id p ∈ (perm_id <$>
      unique_by_id [] (r ← user_roles d user; role_permissions d (role_id r)))).
  { intros r p Hr Hp. apply unique_by_id_ids. split; [apply not_elem_of_nil|].
    apply list_elem_of_fmap_2, list_elem_of_bind. eauto. }
  split; [apply unique_by_id_NoDup|].
  split; [exact Hsound|]. split; [exact Hcomplete|].
  split; [|split; [|reflexivity]].
  - intros Hkey p. split; [apply Hsound|].
    intros (r & Hr & Hp).
    pose proof (Hcomplete r p Hr Hp) as Hid.
    apply list_elem_of_fmap in Hid as (q & Hq & Hin).
    destruct (Hsound q Hin) as (r' & _ & Hq').
    apply elem_of_role_permissions in Hp as [Hp _].
    apply elem_of_role_permissions in Hq' as [Hq' _].
    assert (p = q) as ->; [|done].
    by apply (NoDup_fmap_inj_on perm_id (permissions d)).
  - intros Hnone.
    assert (user_roles d user = []) as ->; [|done].
    apply elem_of_nil_inv. intros r Hr.
    apply elem_of_user_roles in Hr as [_ Hr]. by apply Hnone in Hr.
Qed.

Lemma getUserPermissions_witness :
  getUserPermissions example_database 8 = []
  ∧ perm_id <$> getUserPermissions example_database 7 = [1; 2; 3]
  ∧ ∀ p, p ∈ getUserPermissions example_database 7
         ↔ ∃ r, r ∈ user_roles example_database 7
                ∧ p ∈ role_permissions example_database (role_id r).
Proof.
  destruct (getUserPermissions_is_union example_database 8)
    as (_ & _ & _ & _ & Hnone & _).
  destruct (getUserPermissions_is_union example_database 7)
    as (_ & _ & _ & Hiff & _).
  split; [|split; [reflexivity|]].
  - apply Hnone. intros rid Hin. cbn in Hin.
    repeat (apply elem_of_cons in Hin as [[=]|Hin]).
    by destruct (not_elem_of_nil _ Hin).
  - apply Hiff. apply (bool_decide_unpack _). vm_compute. exact I.
Defined.

End Resolver.

(** ** The audit middleware *)

Lemma str_starts_with_spec (haystack needle : string) :
  str_starts_with haystack needle = true ↔ ∃ rest, haystack = needle +:+ rest.
Proof.
  revert haystack. induction needle as [|c needle IH]; intros haystack.
  - split; [intros _; by exists haystack | done].
  - destruct haystack as [|h haystack]; cbn [str_starts_with].
    + split; [done | intros [rest [=]]].
    + case_decide as Hc.
      * subst h. rewrite IH.
        split; intros [rest Hrest]; exists rest;
          [by rewrite Hrest | by injection Hrest].
      * split; [done | intros [rest [= Hh _]]; done].
Qed.

Section Middleware.

Import AuditLogger.

Variable intval : value → Z.

Lemma shouldLog_spec (request : Request) (response : Response) :
  shouldLog request response = true
  ↔ is_Some (req_user request)
    ∧ req_method request ∈ loggableMethods
    ∧ (∀ excluded, excluded ∈ excludedRoutes →
                   ¬ ∃ rest, req_path request = excluded +:+ rest)
    ∧ 200 ≤ resp_status response < 300.
Proof.
  unfold shouldLog.
  destruct (decide (is_Some (req_user request))) as [Hu|Hu];
    [rewrite (bool_decide_eq_true_2 _ Hu) | rewrite (bool_decide_eq_false_2 _ Hu)];
    cbn [negb]; [|split; [done | tauto]].
  destruct (decide (req_method request ∈ loggableMethods)) as [Hm|Hm];
    [rewrite (bool_decide_eq_true_2 _ Hm) | rewrite (bool_decide_eq_false_2 _ Hm)];
    cbn [negb]; [|split; [done | tauto]].
  destruct (existsb _ excludedRoutes) eqn:Hex.
  - split; [done|]. intros (_ & _ & Hnone & _). exfalso.
    apply existsb_exists in Hex as (excluded & Hin & Hpre).
    apply (Hnone excluded); [by apply list_elem_of_In|].
    by apply str_starts_with_spec.
  - assert (Hnone : ∀ excluded, excluded ∈ excludedRoutes →
                                ¬ ∃ rest, req_path request = excluded +:+ rest).
    { intros excluded Hin Hpre. apply str_starts_with_spec in Hpre.
      apply not_true_iff_false in Hex. apply Hex, existsb_exists.
      exists excluded. split; [by apply list_elem_of_In | done]. }
    case_bool_decide as Hst.
    + split; [done|]. intros (_ & _ & _ & Hrange). lia.
    + split; [|done]. intros _. repeat split; try done; lia.
Qed.

(** C8.  The middleware hands back the downstream response unchanged and
    leaves the cache alone.  It appends exactly one entry to the audit
    trail when [shouldLog] holds and changes nothing otherwise, and
    [shouldLog] holds exactly when the principal is authenticated, the
    method is POST, PUT, PATCH or DELETE, the path starts with none of the
    excluded routes, and the response status is in the 2xx range.  So an
    entry is never written for a request whose downstream handling did not
    end in a 2xx response. *)
Theorem handle_logs_only_successful_mutations (request : Request)
    (next : Request → World → Response * World) (w : World) :
  let downstream := next request w in
  let result := handle intval request next w in
  result.1 = downstream.1
  ∧ cache result.2 = cache downstream.2
  ∧ (shouldLog request downstream.1 = true →
     ∃ entry, audit_logs (db result.2) = audit_logs (db downstream.2) ++ [entry]
              ∧ al_user_id entry = req_user request
              ∧ al_action entry = determineAction request)
  ∧ (shouldLog request downstream.1 = false → result.2 = downstream.2)
  ∧ (audit_logs (db result.2) ≠ audit_logs (db downstream.2) →
     is_Some (req_user request)
     ∧ req_method request ∈ loggableMethods
     ∧ (∀ excluded, excluded ∈ excludedRoutes →
                    ¬ ∃ rest, req_path request = excluded +:+ rest)
     ∧ 200 ≤ resp_status downstream.1 < 300).
Proof.
  intros downstream result. subst downstream result. unfold handle.
  destruct (next request w) as [response w1]. simpl.
  destruct (shouldLog request response) eqn:Hlog; simpl.
  - split; [done|]. split; [done|]. split; [|split; [done|]].
    + intros _. eexists. split; [reflexivity|]. split; [|done].
      simpl. apply shouldLog_spec in Hlog as ([u Hu] & _). by rewrite Hu.
    + intros _. by apply shouldLog_spec.
  - repeat split; try done.
Qed.

End Middleware.

Lemma handle_witness :
  (AuditLogger.handle example_intval example_request rejecting_next example_world).2
  = example_world
  ∧ ∃ entry,
      audit_logs (db (AuditLogger.handle example_intval example_request
                        accepting_next example_world).2) = [entry]
      ∧ al_action entry = "update".
Proof.
  pose proof (handle_logs_only_successful_mutations example_intval example_request
                rejecting_next example_world) as Hrej.
  pose proof (handle_logs_only_successful_mutations example_intval example_request
                accepting_next example_world) as Hacc.
  cbv zeta in Hrej, Hacc.
  destruct Hrej as (_ & _ & _ & Hnone & _).
  destruct Hacc as (_ & _ & Hone & _).
  split; [apply Hnone; reflexivity|].
  destruct (Hone eq_refl) as (entry & Hlogs & _ & Haction).
  exists entry. split; [exact Hlogs | exact Haction].
Defined.

(** ** The permission cache *)

Section PermissionCache.

Import PermissionService.

Lemma getUserPermissionsCacheKey_inj (u u' : Z) :
  getUserPermissionsCacheKey u = getUserPermissionsCacheKey u' → u = u'.
Proof.
  unfold getUserPermissionsCacheKey. intros Heq.
  apply String.app_inj in Heq. by apply pretty_Z_inj in Heq.
Qed.

Lemma clear_users_fold (userIds : list Z) (w : World) :
  let w' := foldl (λ w' userId, clearUserPermissionsCache userId w') w userIds in
  db w' = db w
  ∧ ∀ key, cache w' !! key =
           if decide (key ∈ (getUserPermissionsCacheKey <$> userIds))
           then None else cache w !! key.
Proof.
  revert w. induction userIds as [|u userIds IH]; intros w; cbn [foldl].
  - split; [done|]. intros key. rewrite fmap_nil.
    rewrite decide_False by apply not_elem_of_nil. done.
  - destruct (IH (clearUserPermissionsCache u w)) as [Hdb Hcache].
    cbv zeta. split; [by rewrite Hdb|].
    intros key. rewrite Hcache, fmap_cons. cbn [clearUserPermissionsCache cache].
    unfold Cache.forget.
    destruct (decide (key = getUserPermissionsCacheKey u)) as [->|Hne].
    + rewrite lookup_delete_eq.
      rewrite (decide_True (P := _ ∈ _ :: _)) by apply list_elem_of_here.
      by case_decide.
    + rewrite lookup_delete_ne by done.
      destruct (decide (key ∈ (getUserPermissionsCacheKey <$> userIds))) as [Hin|Hout].
      * rewrite decide_True; [done | by right].
      * rewrite decide_False; [done|]. by intros [?|?]%elem_of_cons.
Qed.

Lemma role_member_ids (rows : list (Z * Z)) (roleId u : Z) :
  u ∈ (filter (λ row : Z * Z, row.1 = roleId) rows).*2 ↔ (roleId, u) ∈ rows.
Proof.
  rewrite list_elem_of_fmap. split.
  - intros ([r u'] & -> & Hin). apply list_elem_of_filter in Hin as [Hr Hin].
    simpl in *. by subst r.
  - intros Hin. exists (roleId, u). split; [done|].
    by apply list_elem_of_filter.
Qed.

Lemma clear_role_users_lookup (roleId : Z) (w : World) :
  let w' := clearRoleUsersPermissionsCache roleId w in
  db w' = db w
  ∧ (∀ u, (roleId, u) ∈ role_user (db w) →
          cache w' !! getUserPermissionsCacheKey u = None)
  ∧ (∀ key, (∀ u, (roleId, u) ∈ role_user (db w) →
                  key ≠ getUserPermissionsCacheKey u) →
            cache w' !! key = cache w !! key).
Proof.
  cbv zeta. unfold clearRoleUsersPermissionsCache.
  destruct (clear_users_fold
              (filter (λ row : Z * Z, row.1 = roleId) (role_user (db w))).*2 w)
    as [Hdb Hcache]. cbv zeta in Hdb, Hcache.
  set (w' := foldl _ w _) in *.
  split; [done|]. split.
  - intros u Hu. rewrite Hcache, decide_True; [done|].
    by apply list_elem_of_fmap_2, role_member_ids.
  - intros key Hkey. rewrite Hcache, decide_False; [done|].
    intros (u & -> & Hu)%list_elem_of_fmap. apply role_member_ids in Hu.
    by apply (Hkey u).
Qed.

End PermissionCache.

(** ** Pivot synchronisation *)

Lemma unique_ids_elem (seen ids : list Z) (i : Z) :
  i ∈ unique_ids seen ids ↔ (i ∉ seen) ∧ i ∈ ids.
Proof.
  revert seen. induction ids as [|j ids IH]; intros seen; cbn [unique_ids].
  - pose proof (not_elem_of_nil i). tauto.
  - case_decide as Hseen.
    + rewrite IH, elem_of_cons.
      destruct (decide (i = j)) as [->|Hne]; tauto.
    + rewrite !elem_of_cons, IH, elem_of_cons.
      destruct (decide (i = j)) as [->|Hne]; tauto.
Qed.

Lemma related_ids_elem (rows : list (Z * Z)) (parent i : Z) :
  i ∈ related_ids rows parent ↔ (i, parent) ∈ rows.
Proof.
  unfold related_ids. rewrite list_elem_of_fmap. split.
  - intros ([i' p] & -> & Hin). apply list_elem_of_filter in Hin as [Hp Hin].
    simpl in *. by subst p.
  - intros Hin. exists (i, parent). split; [done|]. by apply list_elem_of_filter.
Qed.

Lemma sync_parent (rows : list (Z * Z)) (parent : Z) (ids : list Z) (i : Z) :
  (i, parent) ∈ sync rows parent ids ↔ i ∈ ids.
Proof.
  unfold sync. rewrite elem_of_app, list_elem_of_filter, list_elem_of_fmap. split.
  - intros [[[Hne|Hin] _]|(j & Heq & Hj)]; simpl in *; [done|done|].
    injection Heq as ->.
    apply list_elem_of_filter in Hj as [_ Hj]. by apply unique_ids_elem in Hj as [_ ?].
  - intros Hi. destruct (decide ((i, parent) ∈ rows)) as [Hrow|Hrow].
    + left. split; [by right|done].
    + right. exists i. split; [done|]. apply list_elem_of_filter. split.
      * by rewrite related_ids_elem.
      * apply unique_ids_elem. split; [apply not_elem_of_nil|done].
Qed.

Lemma sync_other (rows : list (Z * Z)) (parent : Z) (ids : list Z) (row : Z * Z) :
  row.2 ≠ parent → row ∈ sync rows parent ids ↔ row ∈ rows.
Proof.
  intros Hne. unfold sync. rewrite elem_of_app, list_elem_of_filter, list_elem_of_fmap.
  split.
  - intros [[_ ?]|(j & -> & _)]; done.
  - intros Hin. left. split; [by left|done].
Qed.

(** ** The role service *)

Section Roles.

Import RoleService.

Lemma findOrFail_Return (id : Z) (d d' : Database) (r : Role) :
  findOrFail id d = Return r d' → d' = d ∧ r ∈ roles d ∧ role_id r = id.
Proof.
  unfold findOrFail. destruct (List.find _ _) as [r'|] eqn:Hfind; [|done].
  intros [= -> ->]. apply find_some in Hfind as [Hin Hid].
  split; [done|]. split; [by apply list_elem_of_In|].
  by apply bool_decide_eq_true in Hid.
Qed.

Lemma validatePermissionIds_Return (ids : list Z) (d d' : Database) (b : bool) :
  validatePermissionIds ids d = Return b d' → d' = d.
Proof.
  unfold validatePermissionIds. destruct ids as [|i ids]; [by intros [= _ ->]|].
  unfold mbind, M_bind, bind, get_db. case_decide; [done|by intros [= _ ->]].
Qed.

Lemma assignPermissions_Return (roleId : Z) (ids : list Z) (d d' : Database)
    (result : Role * list Permission) :
  assignPermissions roleId ids d = Return result d' →
  d' = set_permission_role (sync (permission_role d) roleId ids) d.
Proof.
  unfold assignPermissions, mbind, M_bind, bind.
  destruct (findOrFail roleId d) as [r d1|e d1] eqn:Hfind; [|done].
  apply findOrFail_Return in Hfind as (-> & _ & _).
  destruct (validatePermissionIds ids d) as [b d2|e d2] eqn:Hvalid; [|done].
  apply validatePermissionIds_Return in Hvalid as ->.
  unfold sync_permissions, modify_db.
  destruct (findOrFail roleId _) as [r' d3|e d3] eqn:Hfresh; [|done].
  apply findOrFail_Return in Hfresh as (-> & _ & _).
  unfold load_permissions, mbind, M_bind, bind, get_db, mret, M_ret, ret.
  by intros [= _ <-].
Qed.

End Roles.

(** ** Cache coherence of permission assignment *)

Section Coherence.

Import PermissionService.

Lemma assignPermissions_success
    (input_permissions input_permission_ids : option (list Z))
    (role : Z) (w w' : World) (response : Response) :
  RoleController.assignPermissions input_permissions input_permission_ids role w
  = (response, w') →
  resp_status response = 200 →
  w' = clearRoleUsersPermissionsCache role
         (RoleController.with_db w
            (set_permission_role
               (sync (permission_role (db w)) role
                  (default (default [] input_permission_ids) input_permissions))
               (db w))).
Proof.
  unfold RoleController.assignPermissions. cbv zeta.
  set (ids := default (default [] input_permission_ids) input_permissions).
  destruct (RoleController.permission_ids_rules (db w) ids) as [|e es];
    [|by intros [= <- _]].
  destruct (RoleService.assignPermissions role ids (db w))
    as [roleData d|[|errors] d] eqn:Hassign; [|by intros [= <- _]..].
  apply assignPermissions_Return in Hassign as ->.
  by intros [= _ <-] _.
Qed.

(** C4.  When [RoleController::assignPermissions] answers 200, the role's
    permission rows are exactly the submitted ids, the role's members are
    unchanged, and for every user attached to the role the cache holds no
    entry any more, so that the user's next permission check, whenever it
    happens, is answered from the permissions resolved against the updated
    store. *)
Theorem assignPermissions_cache_coherent
    (input_permissions input_permission_ids : option (list Z))
    (role : Z) (w w' : World) (response : Response) :
  RoleController.assignPermissions input_permissions input_permission_ids role w
  = (response, w') →
  resp_status response = 200 →
  let permissionIds := default (default [] input_permission_ids) input_permissions in
  role_user (db w') = role_user (db w)
  ∧ (∀ i, (i, role) ∈ permission_role (db w') ↔ i ∈ permissionIds)
  ∧ (∀ row, row.2 ≠ role → row ∈ permission_role (db w') ↔ row ∈ permission_role (db w))
  ∧ ∀ u, (role, u) ∈ role_user (db w') →
         cache w' !! getUserPermissionsCacheKey u = None
         ∧ ∀ now permission,
             (userHasPermission now u permission w').1
             = in_array permission (perm_name <$> getUserPermissions (db w') u).
Proof.
  intros Hrun Hok.
  apply assignPermissions_success in Hrun as ->; [|exact Hok]. cbv zeta.
  set (ids := default (default [] input_permission_ids) input_permissions).
  destruct (clear_role_users_lookup role
              (RoleController.with_db w
                 (set_permission_role (sync (permission_role (db w)) role ids) (db w))))
    as (Hdb & Hgone & _). cbv zeta in Hdb, Hgone.
  rewrite Hdb. cbn [RoleController.with_db db role_user permission_role set_permission_role].
  split; [done|]. split; [intros i; apply sync_parent|].
  split; [intros row Hrow; by apply sync_other|].
  intros u Hu. specialize (Hgone u Hu). split; [exact Hgone|].
  intros now permission. unfold userHasPermission, Cache.remember, Cache.get.
  rewrite Hgone. cbn [fst]. by rewrite Hdb.
Qed.

Lemma assignPermissions_cache_coherent_witness :
  let result := RoleController.assignPermissions (Some [1]) None 1 stale_world in
  resp_status result.1 = 200
  ∧ cache result.2 !! getUserPermissionsCacheKey 7 = None
  ∧ (userHasPermission 1000 7 "roles.view" stale_world).1 = true
  ∧ (userHasPermission 1000 7 "roles.view" result.2).1 = false
  ∧ (userHasPermission 1000 7 "users.edit" result.2).1 = true.
Proof.
  cbv zeta.
  set (result := RoleController.assignPermissions (Some [1]) None 1 stale_world).
  assert (Hrun : result = (result.1, result.2)) by (vm_compute; reflexivity).
  assert (Hok : resp_status result.1 = 200) by (vm_compute; reflexivity).
  destruct (assignPermissions_cache_coherent (Some [1]) None 1 stale_world
              result.2 result.1 Hrun Hok) as (_ & _ & _ & Hmembers).
  assert (Hmember : (1, 7) ∈ role_user (db result.2)).
  { apply (bool_decide_unpack _). vm_compute. exact I. }
  destruct (Hmembers 7 Hmember) as [Hgone Hfresh].
  split; [exact Hok|]. split; [exact Hgone|]. split; [vm_compute; reflexivity|].
  rewrite !Hfresh. split; vm_compute; reflexivity.
Defined.

End Coherence.

(** ** Role-level invalidation *)

Section RoleInvalidation.

Import PermissionService.

(** C10.  [clearRoleUsersPermissionsCache] reads the role's members at the
    time of the call and evicts exactly their permission-cache entries: the
    store is untouched, the entry of every current member is gone, and every
    other cache key keeps its entry.  In particular a user who is no longer
    attached to the role when the call is made keeps the cached list, and
    permission checks for that user are answered from it until it expires.
    In [RoleController::assignPermissions] the call is made on the store as
    it is after the permission sync. *)
Theorem clearRoleUsersPermissionsCache_evicts_current_members
    (roleId : Z) (w : World) :
  let w' := clearRoleUsersPermissionsCache roleId w in
  db w' = db w
  ∧ (∀ u, (roleId, u) ∈ role_user (db w) →
          cache w' !! getUserPermissionsCacheKey u = None)
  ∧ (∀ key, (∀ u, (roleId, u) ∈ role_user (db w) →
                  key ≠ getUserPermissionsCacheKey u) →
            cache w' !! key = cache w !! key)
  ∧ (∀ u e now permission,
       (roleId, u) ∉ role_user (db w) →
       cache w !! getUserPermissionsCacheKey u = Some e →
       now < Cache.entry_expires e →
       userHasPermission now u permission w'
       = (in_array permission (Cache.entry_value e), w'))
  ∧ (∀ input_permissions input_permission_ids response w1,
       RoleController.assignPermissions input_permissions input_permission_ids
         roleId w = (response, w1) →
       resp_status response = 200 →
       w1 = clearRoleUsersPermissionsCache roleId
              (RoleController.with_db w
                 (set_permission_role
                    (sync (permission_role (db w)) roleId
                       (default (default [] input_permission_ids) input_permissions))
                    (db w)))).
Proof.
  destruct (clear_role_users_lookup roleId w) as (Hdb & Hgone & Hkeep).
  cbv zeta in *. set (w' := clearRoleUsersPermissionsCache roleId w) in *.
  split; [done|]. split; [exact Hgone|]. split; [exact Hkeep|].
  split; [|intros ? ? ? ?; apply assignPermissions_success].
  intros u e now permission Hu He Hnow.
  unfold userHasPermission, Cache.remember, Cache.get.
  rewrite Hkeep, He.
  - rewrite decide_True by done. by destruct w'.
  - intros u' Hu' Heq. apply getUserPermissionsCacheKey_inj in Heq. by subst u'.
Qed.

Lemma clearRoleUsersPermissionsCache_witness :
  let w' := clearRoleUsersPermissionsCache 1 stale_world in
  cache w' !! getUserPermissionsCacheKey 7 = None
  ∧ cache w' !! "system_setting_timezone" = cache stale_world !! "system_setting_timezone"
  ∧ getUserPermissions (db w') 8 = []
  ∧ (userHasPermission 1000 8 "users.edit" w').1 = true.
Proof.
  pose proof (clearRoleUsersPermissionsCache_evicts_current_members 1 stale_world)
    as (_ & Hgone & Hkeep & Hstale & _).
  cbv zeta. split; [|split; [|split; [reflexivity|]]].
  - apply Hgone. apply (bool_decide_unpack _). vm_compute. exact I.
  - apply Hkeep. intros u _. unfold getUserPermissionsCacheKey.
    intros Heq. discriminate Heq.
  - rewrite (Hstale 8 {| Cache.entry_value := ["users.edit"];
                         Cache.entry_expires := 5000 |} 1000 "users.edit").
    + reflexivity.
    + apply (bool_decide_unpack _). vm_compute. exact I.
    + vm_compute. reflexivity.
    + reflexivity.
Defined.

End RoleInvalidation.

(** ** Creating roles *)

Section CreateRole.

Import RoleService.

Lemma existing_count_lt (ps : list Permission) (ids : list Z) (bad : Z) :
  NoDup (perm_id <$> ps) → bad ∈ ids → (∀ p, p ∈ ps → perm_id p ≠ bad) →
  (length (filter (λ p, perm_id p ∈ ids) ps) < length ids)%nat.
Proof.
  intros Hkey Hbad Hfresh.
  set (found := perm_id <$> filter (λ p, perm_id p ∈ ids) ps).
  assert (Hlen : length found = length (filter (λ p, perm_id p ∈ ids) ps))
    by apply length_fmap.
  assert (Hnodup : NoDup found).
  { eapply sublist_NoDup; [exact Hkey|]. apply fmap_sublist, sublist_filter. }
  assert (Hsub : found ⊆+ filter (λ i, i ≠ bad) ids).
  { apply NoDup_submseteq; [done|]. intros i (p & -> & Hp)%list_elem_of_fmap.
    apply list_elem_of_filter in Hp as [Hin Hp].
    apply list_elem_of_filter. split; [by apply Hfresh | done]. }
  apply submseteq_length in Hsub.
  pose proof (length_filter_lt (λ i, i ≠ bad) ids bad Hbad) as Hlt.
  rewrite <- Hlen. eapply Nat.le_lt_trans; [exact Hsub|]. apply Hlt. tauto.
Qed.

(** C7 (as amended).  [createRole] fails with the validation error on
    [name] when a role with exactly that name exists.  With a fresh name
    and a permission list that contains an id of no permission, it fails
    with the validation error on [permission_ids], whose message is the
    fixed text ['One or more permission IDs are invalid.'] (the ids are not
    reported), and the store is left as it was before the call: the role
    row written inside the transaction is rolled back. *)
Theorem createRole_rejects_atomically (data : RoleData) (d : Database) :
  ((∃ r, r ∈ roles d ∧ role_name r = rd_name data) →
   createRole data d = Throw duplicate_name_error d)
  ∧ (∀ ids bad,
       NoDup (perm_id <$> permissions d) →
       (∀ r, r ∈ roles d → role_name r ≠ rd_name data) →
       rd_permission_ids data = Some ids →
       bad ∈ ids →
       (∀ p, p ∈ permissions d → perm_id p ≠ bad) →
       createRole data d = Throw invalid_permission_ids_error d).
Proof.
  split.
  - intros (r & Hr & Hname). unfold createRole, mbind, M_bind, bind, get_db.
    rewrite decide_True; [done|]. apply Exists_exists. eauto.
  - intros ids bad Hkey Hfresh Hids Hbad Hmissing.
    unfold createRole, mbind, M_bind, bind, get_db.
    rewrite decide_False.
    2:{ intros (r & Hr & Hname)%Exists_exists. by apply (Hfresh r). }
    unfold DB_transaction, Role_create. rewrite Hids.
    destruct ids as [|i ids]; [by destruct (not_elem_of_nil _ Hbad)|].
    unfold validatePermissionIds, mbind, M_bind, bind, get_db.
    cbn [permissions set_roles].
    rewrite decide_True; [done|].
    pose proof (existing_count_lt (permissions d) (i :: ids) bad Hkey Hbad Hmissing).
    lia.
Qed.

Lemma createRole_rejects_atomically_witness :
  createRole (guest_role [2; 99]) example_database
  = Throw invalid_permission_ids_error example_database
  ∧ createRole {| rd_name := "Editor"; rd_description := None;
                  rd_is_system := None; rd_permission_ids := None |}
      example_database
    = Throw duplicate_name_error example_database.
Proof.
  destruct (createRole_rejects_atomically (guest_role [2; 99]) example_database)
    as [_ Hids].
  destruct (createRole_rejects_atomically
              {| rd_name := "Editor"; rd_description := None;
                 rd_is_system := None; rd_permission_ids := None |}
              example_database) as [Hname _].
  split.
  - apply (Hids [2; 99] 99).
    + apply (bool_decide_unpack _). vm_compute. exact I.
    + intros r Hr. cbn in Hr.
      repeat (apply elem_of_cons in Hr as [->|Hr]); try discriminate.
      by destruct (not_elem_of_nil _ Hr).
    + reflexivity.
    + apply (bool_decide_unpack _). vm_compute. exact I.
    + intros p Hp. cbn in Hp.
      repeat (apply elem_of_cons in Hp as [->|Hp]); try discriminate.
      by destruct (not_elem_of_nil _ Hp).
  - apply Hname.
    exists {| role_id := 2; role_name := "Editor"; role_description := None;
              role_is_system := false |}.
    split; [|reflexivity]. apply (bool_decide_unpack _). vm_compute. exact I.
Defined.

(** C7 (as stated) fails: the error raised for a bad permission id is the
    same value whatever the id is, so the bad ids cannot be read off it. *)
Lemma createRole_error_does_not_list_ids :
  ¬ ∃ listing : Exception → list Z,
      ∀ ids e d',
        createRole (guest_role ids) example_database = Throw e d' →
        listing e = invalid_ids example_database ids.
Proof.
  intros [listing Hlisting].
  pose proof (Hlisting [98] invalid_permission_ids_error example_database eq_refl) as H98.
  pose proof (Hlisting [99] invalid_permission_ids_error example_database eq_refl) as H99.
  rewrite H98 in H99. vm_compute in H99. discriminate H99.
Qed.

End CreateRole.

(** ** Deleting roles *)

Section DeleteRole.

Import RoleService.

(** C1.  [deleteRole] never reads [is_system]: a system role that no user
    holds is deleted like any other role.  The call returns true, no role
    with that id is left in the store, its permission rows are gone, and
    the controller answers 200. *)
Theorem deleteRole_deletes_unassigned_system_role (id : Z) (r : Role)
    (w : World) :
  findOrFail id (db w) = Return r (db w) →
  role_is_system r = true →
  role_users (db w) id = [] →
  ∃ d', deleteRole id (db w) = Return true d'
        ∧ (∀ r', r' ∈ roles d' → role_id r' ≠ id)
        ∧ (∀ i, (i, id) ∉ permission_role d')
        ∧ RoleController.destroy id w
          = (json [("success", VBool true);
                   ("message", VStr "Role deleted successfully.")] 200,
             RoleController.with_db w d').
Proof.
  intros Hfind _ Husers.
  pose proof (findOrFail_Return _ _ _ _ Hfind) as (_ & _ & Hid).
  assert (Hdelete : ∃ d', deleteRole id (db w) = Return true d'
                          ∧ (∀ r', r' ∈ roles d' → role_id r' ≠ id)
                          ∧ (∀ i, (i, id) ∉ permission_role d')).
  { unfold deleteRole, hasAssignedUsers, mbind, M_bind, bind, get_db.
    rewrite Hfind, Hfind, Husers. cbn [length bool_decide].
    rewrite bool_decide_eq_false_2 by (simpl; lia).
    eexists. split; [reflexivity|]. cbn [roles permission_role set_roles set_permission_role].
    rewrite Hid. split.
    - intros r' Hr'. by apply list_elem_of_filter in Hr' as [? _].
    - intros i Hi. unfold detach_all in Hi.
      by apply list_elem_of_filter in Hi as [? _]. }
  destruct Hdelete as (d' & Hdelete & Hroles & Hperms).
  exists d'. repeat split; try done.
  unfold RoleController.destroy. by rewrite Hdelete.
Qed.

Lemma deleteRole_deletes_unassigned_system_role_witness :
  ∃ d', deleteRole 3 example_database = Return true d'
        ∧ role_id <$> roles d' = [1; 2]
        ∧ resp_status (RoleController.destroy 3 example_world).1 = 200.
Proof.
  destruct (deleteRole_deletes_unassigned_system_role 3
              {| role_id := 3; role_name := "Accountant";
                 role_description := Some "Accounting access";
                 role_is_system := true |}
              example_world eq_refl eq_refl eq_refl)
    as (d' & Hdelete & _ & _ & Hdestroy).
  exists d'. split; [exact Hdelete|]. split.
  - assert (Hd' : Return (A := bool) true d'
                  = Return true (set_roles (filter (λ r, role_id r ≠ 3) (roles example_database))
                                   4 (set_permission_role
                                        (detach_all (permission_role example_database) 3)
                                        example_database)))
      by (rewrite <- Hdelete; vm_compute; reflexivity).
    injection Hd' as ->. vm_compute. reflexivity.
  - rewrite Hdestroy. reflexivity.
Defined.

End DeleteRole.

(** ** Updating users *)

Section UpdateUser.

Import PermissionService.

Lemma update_keeps_cache (Hash_make : string → string)
    (data : UserService.UserData) (user : Z) (w : World) :
  cache (UserController.update Hash_make data user w).2 = cache w.
Proof.
  unfold UserController.update.
  by destruct (UserService.updateUser _ _ _ _) as [? ?|[|?] ?].
Qed.

(** C3.  [updateUser] with [role_ids] replaces the user's roles, but
    neither the service nor the controller touches the permission cache.
    In the example, user 7 loses every role, the store resolves no
    permission for that user any more, and yet the cached entry is still
    there and the next permission check is answered from it. *)
Theorem updateUser_leaves_permission_cache :
  (∀ Hash_make data user w,
     cache (UserController.update Hash_make data user w).2 = cache w)
  ∧ let result := UserController.update example_hash detach_all_roles 7 stale_world in
    resp_status result.1 = 200
    ∧ role_user (db result.2) = []
    ∧ getUserPermissions (db result.2) 7 = []
    ∧ cache result.2 !! getUserPermissionsCacheKey 7
      = Some {| Cache.entry_value := ["users.view"; "users.edit"; "roles.view"];
                Cache.entry_expires := 5000 |}
    ∧ (userHasPermission 1000 7 "users.edit" result.2).1 = true.
Proof.
  split; [apply update_keeps_cache|].
  cbv zeta. repeat split; vm_compute; reflexivity.
Qed.

End UpdateUser.

(** ** The dashboard's permission checks *)

Section Dashboard.

Import AuthStore.

(** C2 (as amended).  With an empty list of required permissions,
    [hasAllPermissions] answers true and [hasAnyPermission] answers false
    for every user.  The rule that no requirement means access is applied
    by the guards: [ProtectedRoute] and [Can] grant access when they are
    given no single permission and no or an empty permission list. *)
Theorem empty_requirement_checks (s : AuthState) :
  hasAllPermissions s [] = true
  ∧ hasAnyPermission s [] = false
  ∧ ∀ requireAll,
      hasAccess s None (Some []) requireAll = true
      ∧ hasAccess s None None requireAll = true.
Proof. repeat split. Qed.

(** C2 (as stated) fails for [hasAnyPermission]: no element of the empty
    list is held. *)
Lemma hasAnyPermission_empty_is_false :
  ¬ (hasAnyPermission user_without_permissions [] = true
     ∧ hasAllPermissions user_without_permissions [] = true).
Proof. intros [Hany _]. discriminate Hany. Qed.

End Dashboard.

(** * Further properties of the services *)

(** ** List helpers *)

Lemma filter_all {A : Type} (P : A → Prop) `{∀ x, Decision (P x)} (l : list A) :
  (∀ x, x ∈ l → P x) → filter P l = l.
Proof.
  induction l as [|a l IH]; intros Hall; [done|].
  rewrite filter_cons, decide_True by apply Hall, list_elem_of_here.
  f_equal. apply IH. intros x Hx. apply Hall. by right.
Qed.

Lemma filter_none {A : Type} (P : A → Prop) `{∀ x, Decision (P x)} (l : list A) :
  (∀ x, x ∈ l → ¬ P x) → filter P l = [].
Proof.
  induction l as [|a l IH]; intros Hnone; [done|].
  rewrite filter_cons, decide_False by apply Hnone, list_elem_of_here.
  apply IH. intros x Hx. apply Hnone. by right.
Qed.

Lemma unique_ids_NoDup (seen ids : list Z) : NoDup (unique_ids seen ids).
Proof.
  revert seen. induction ids as [|i ids IH]; intros seen; cbn [unique_ids].
  - constructor.
  - case_decide as Hseen; [apply IH|].
    constructor; [|apply IH].
    rewrite unique_ids_elem. intros [Hn _]. apply Hn, list_elem_of_here.
Qed.

(** ** Pivot synchronisation, continued *)

Lemma sync_well_formed (rows : list (Z * Z)) (parent : Z) (ids : list Z) :
  (NoDup rows → NoDup (sync rows parent ids))
  ∧ sync (sync rows parent ids) parent ids = sync rows parent ids
  ∧ sync rows parent [] = detach_all rows parent.
Proof.
  split; [|split].
  - intros Hrows. unfold sync. apply NoDup_app. split; [by apply NoDup_filter|].
    split.
    + intros row Hkept (i & -> & Hi)%list_elem_of_fmap.
      apply list_elem_of_filter in Hkept as [_ Hrow].
      apply list_elem_of_filter in Hi as [Hnew _].
      by apply Hnew, related_ids_elem.
    + apply NoDup_fmap_2; [by intros i j [= ->]|].
      apply NoDup_filter, unique_ids_NoDup.
  - set (rows' := sync rows parent ids).
    unfold sync at 1.
    rewrite (filter_all _ rows'), (filter_none _ (unique_ids [] ids)).
    + apply app_nil_r.
    + intros i Hi Hnew. apply Hnew, related_ids_elem, sync_parent.
      by apply unique_ids_elem in Hi as [_ ?].
    + intros [i p] Hrow. simpl.
      destruct (decide (p = parent)) as [->|Hne]; [right|by left].
      by apply (sync_parent rows parent ids).
  - unfold sync, detach_all. cbn [unique_ids filter fmap]. rewrite app_nil_r.
    apply list_filter_iff. intros row. split; [|by left].
    intros [?|Hin]; [done|]. by destruct (not_elem_of_nil _ Hin).
Qed.

(** ** Validating permission ids *)

Section PermissionIds.

Lemma existing_count_eq (ps : list Permission) (ids : list Z) :
  NoDup (perm_id <$> ps) →
  length (filter (λ p, perm_id p ∈ ids) ps) = length ids
  ↔ NoDup ids ∧ ∀ i, i ∈ ids → ∃ p, p ∈ ps ∧ perm_id p = i.
Proof.
  intros Hkey.
  set (found := perm_id <$> filter (λ p, perm_id p ∈ ids) ps).
  assert (Hlen : length found = length (filter (λ p, perm_id p ∈ ids) ps))
    by apply length_fmap.
  assert (Hnodup : NoDup found).
  { eapply sublist_NoDup; [exact Hkey|]. apply fmap_sublist, sublist_filter. }
  assert (Hfound : ∀ i, i ∈ found ↔ i ∈ ids ∧ ∃ p, p ∈ ps ∧ perm_id p = i).
  { intros i. unfold found. rewrite list_elem_of_fmap. split.
    - intros (p & -> & Hp). apply list_elem_of_filter in Hp as [? ?]. eauto.
    - intros (Hi & p & Hp & <-). exists p. split; [done|].
      by apply list_elem_of_filter. }
  assert (Hsub : found ⊆+ ids).
  { apply NoDup_submseteq; [done|]. intros i Hi. by apply Hfound in Hi as [? _]. }
  rewrite <- Hlen. split.
  - intros Heq.
    assert (Hperm : found ≡ₚ ids)
      by (apply submseteq_length_Permutation; [done | lia]).
    split; [by rewrite <- Hperm|].
    intros i Hi. rewrite <- Hperm in Hi. by apply Hfound in Hi as [_ ?].
  - intros [Hids Hexist].
    assert (Hsup : ids ⊆+ found).
    { apply NoDup_submseteq; [done|]. intros i Hi. apply Hfound. eauto. }
    apply submseteq_length in Hsub, Hsup. lia.
Qed.

(** X4.  With ids identifying the rows of [permissions], the id check of
    the role service returns true exactly for a list without repetition all
    of whose ids exist (the empty list included) and throws the fixed
    validation error for every other list, in particular for a list that
    names an existing id twice; it never changes the store.  The boolean
    check of the permission service accepts the same lists. *)
Theorem validatePermissionIds_accepts_iff (d : Database) (ids : list Z) :
  NoDup (perm_id <$> permissions d) →
  let valid := NoDup ids ∧ ∀ i, i ∈ ids → ∃ p, p ∈ permissions d ∧ perm_id p = i in
  (valid → RoleService.validatePermissionIds ids d = Return true d)
  ∧ (¬ valid → RoleService.validatePermissionIds ids d
               = Throw RoleService.invalid_permission_ids_error d)
  ∧ (PermissionService.validatePermissionIds d ids = true ↔ valid).
Proof.
  intros Hkey valid. subst valid.
  pose proof (existing_count_eq (permissions d) ids Hkey) as Hcount.
  unfold RoleService.validatePermissionIds, PermissionService.validatePermissionIds,
    mbind, M_bind, bind, get_db.
  destruct ids as [|i ids].
  - split; [done|]. split; [|split; [intros _|done]].
    + intros Hn. destruct Hn. split; [constructor|].
      intros j Hj. by destruct (not_elem_of_nil _ Hj).
    + split; [constructor|]. intros j Hj. by destruct (not_elem_of_nil _ Hj).
  - split; [|split].
    + intros Hvalid. apply Hcount in Hvalid. by rewrite decide_False by lia.
    + intros Hinvalid. rewrite decide_True; [done|]. by rewrite Hcount.
    + by rewrite bool_decide_eq_true, Hcount.
Qed.

Lemma validatePermissionIds_accepts_iff_witness :
  RoleService.validatePermissionIds [3; 1] example_database = Return true example_database
  ∧ RoleService.validatePermissionIds [2; 2] example_database
    = Throw RoleService.invalid_permission_ids_error example_database
  ∧ PermissionService.validatePermissionIds example_database [2; 2] = false.
Proof.
  assert (Hkey : NoDup (perm_id <$> permissions example_database))
    by (apply (bool_decide_unpack _); vm_compute; exact I).
  destruct (validatePermissionIds_accepts_iff example_database [3; 1] Hkey)
    as (Haccept & _).
  destruct (validatePermissionIds_accepts_iff example_database [2; 2] Hkey)
    as (_ & Hreject & Hbool).
  split; [|split].
  - apply Haccept. split; [apply (bool_decide_unpack _); vm_compute; exact I|].
    intros i Hi. cbn in Hi.
    repeat (apply elem_of_cons in Hi as [->|Hi]);
      [exists {| perm_id := 3; perm_name := "roles.view"; perm_description := None;
                 perm_module := "roles" |}
      |exists {| perm_id := 1; perm_name := "users.view"; perm_description := None;
                 perm_module := "users" |}
      |by destruct (not_elem_of_nil _ Hi)];
      (split; [apply (bool_decide_unpack _); vm_compute; exact I | reflexivity]).
  - apply Hreject. intros [Hnodup _]. by apply NoDup_cons in Hnodup as [Hin _];
      destruct Hin; apply list_elem_of_here.
  - apply not_true_is_false. intros Htrue. apply Hbool in Htrue as [Hnodup _].
    apply NoDup_cons in Hnodup as [Hin _]. destruct Hin. apply list_elem_of_here.
Defined.

End PermissionIds.

(** ** The role service, continued *)

Section RolesMore.

Import RoleService.

Lemma findOrFail_missing (id : Z) (d : Database) :
  (∀ r, r ∈ roles d → role_id r ≠ id) → findOrFail id d = Throw ModelNotFoundException d.
Proof.
  intros Hmissing. unfold findOrFail.
  destruct (List.find _ _) as [r|] eqn:Hfind; [|done].
  apply find_some in Hfind as [Hin Hid].
  apply bool_decide_eq_true in Hid. apply list_elem_of_In in Hin.
  by destruct (Hmissing r Hin).
Qed.

Lemma elem_of_role_users (d : Database) (rid : Z) (u : User) :
  u ∈ role_users d rid
  ↔ u ∈ users d ∧ (rid, user_id u) ∈ role_user d ∧ trashed u = false.
Proof.
  unfold role_users. rewrite list_elem_of_bind. split.
  - intros (u' & Hin & Hu'). apply list_elem_of_bind in Hin as (row & Hin & Hrow).
    case_decide as Heq; [|by destruct (not_elem_of_nil _ Hin)].
    apply list_elem_of_singleton in Hin as ->. destruct Heq as [-> ?]. done.
  - intros (Hu & Hrow & Hlive). exists u. split; [|done].
    apply list_elem_of_bind. exists (rid, user_id u). split; [|done].
    rewrite decide_True by done. apply list_elem_of_here.
Qed.

(** X1.  A role that a user who is not soft-deleted holds cannot be
    deleted: [deleteRole] throws the validation error on [role], the store
    is unchanged, and the controller answers 422 with the message
    ['Cannot delete role that has assigned users.']. *)
Theorem deleteRole_blocked_by_assigned_users (id : Z) (r : Role) (u : User)
    (w : World) :
  findOrFail id (db w) = Return r (db w) →
  u ∈ users (db w) → trashed u = false → (id, user_id u) ∈ role_user (db w) →
  deleteRole id (db w) = Throw assigned_users_error (db w)
  ∧ RoleController.destroy id w
    = (json [("success", VBool false);
             ("message", VStr "Cannot delete role that has assigned users.");
             ("error_code", VStr "VALIDATION_ERROR")] 422, w).
Proof.
  intros Hfind Hu Hlive Hrow.
  assert (Hdelete : deleteRole id (db w) = Throw assigned_users_error (db w)).
  { unfold deleteRole, hasAssignedUsers, mbind, M_bind, bind, get_db.
    rewrite Hfind, Hfind. cbn [mret M_ret ret].
    assert (Hmember : u ∈ role_users (db w) id) by by apply elem_of_role_users.
    destruct (role_users (db w) id) as [|u' us];
      [by destruct (not_elem_of_nil _ Hmember)|].
    rewrite bool_decide_eq_true_2 by (simpl; lia). done. }
  split; [exact Hdelete|].
  unfold RoleController.destroy. rewrite Hdelete. by destruct w.
Qed.

Lemma deleteRole_blocked_by_assigned_users_witness :
  deleteRole 2 example_database = Throw assigned_users_error example_database
  ∧ resp_status (RoleController.destroy 2 example_world).1 = 422.
Proof.
  destruct (deleteRole_blocked_by_assigned_users 2
              {| role_id := 2; role_name := "Editor"; role_description := None;
                 role_is_system := false |}
              {| user_id := 7; user_name := "Ada"; user_email := "ada@example.com";
                 user_password := "$2y$ada"; user_avatar := None;
                 user_is_active := true; user_email_verified_at := None;
                 user_deleted_at := None |}
              example_world eq_refl)
    as [Hdelete Hdestroy].
  - apply list_elem_of_here.
  - reflexivity.
  - apply (bool_decide_unpack _). vm_compute. exact I.
  - split; [exact Hdelete|]. by rewrite Hdestroy.
Defined.

(** X2.  For an id that is no role's, every operation of the role service
    that addresses a role throws [ModelNotFoundException] without changing
    the store, and the controller's delete, update and permission
    assignment answer 404 and leave store and cache as they were. *)
Theorem missing_role_is_not_found (id : Z) (w : World) :
  (∀ r, r ∈ roles (db w) → role_id r ≠ id) →
  deleteRole id (db w) = Throw ModelNotFoundException (db w)
  ∧ hasAssignedUsers id (db w) = Throw ModelNotFoundException (db w)
  ∧ (∀ data, updateRole id data (db w) = Throw ModelNotFoundException (db w))
  ∧ (∀ ids, assignPermissions id ids (db w) = Throw ModelNotFoundException (db w))
  ∧ RoleController.destroy id w = (RoleController.not_found, w)
  ∧ (∀ data, RoleController.update data id w = (RoleController.not_found, w))
  ∧ (∀ ids, RoleController.permission_ids_rules (db w) ids = [] →
            RoleController.assignPermissions (Some ids) None id w
            = (RoleController.not_found, w)).
Proof.
  intros Hmissing. apply findOrFail_missing in Hmissing.
  assert (Hdelete : deleteRole id (db w) = Throw ModelNotFoundException (db w))
    by (unfold deleteRole, mbind, M_bind, bind; by rewrite Hmissing).
  assert (Hupdate : ∀ data, updateRole id data (db w)
                            = Throw ModelNotFoundException (db w))
    by (intros data; unfold updateRole, mbind, M_bind, bind; by rewrite Hmissing).
  assert (Hassign : ∀ ids, assignPermissions id ids (db w)
                           = Throw ModelNotFoundException (db w))
    by (intros ids; unfold assignPermissions, mbind, M_bind, bind; by rewrite Hmissing).
  split; [exact Hdelete|]. split.
  { unfold hasAssignedUsers, mbind, M_bind, bind. by rewrite Hmissing. }
  split; [exact Hupdate|]. split; [exact Hassign|]. split; [|split].
  - unfold RoleController.destroy. rewrite Hdelete. by destruct w.
  - intros data. unfold RoleController.update. rewrite Hupdate. by destruct w.
  - intros ids Hrules. unfold RoleController.assignPermissions.
    change (default (default [] None) (Some ids)) with ids. cbv zeta.
    rewrite Hrules, Hassign. by destruct w.
Qed.

Lemma missing_role_is_not_found_witness :
  deleteRole 9 example_database = Throw ModelNotFoundException example_database
  ∧ resp_status (RoleController.assignPermissions (Some [1]) None 9 example_world).1
    = 404.
Proof.
  destruct (missing_role_is_not_found 9 example_world) as (Hdelete & _ & _ & _ & _ & _ & Hassign).
  - intros r Hr. cbn in Hr.
    repeat (apply elem_of_cons in Hr as [->|Hr]); try discriminate.
    by destruct (not_elem_of_nil _ Hr).
  - split; [exact Hdelete|]. rewrite Hassign; reflexivity.
Defined.

End RolesMore.

(** ** Re-submitting a permission assignment *)

Section AssignAgain.

Import RoleService.

(** X5.  Assigning permissions is idempotent and keeps the pivot table
    well formed: after a successful [assignPermissions], the same call
    succeeds again with the same result and leaves the store exactly as it
    is, and a [permission_role] table without duplicate rows has none
    afterwards. *)
Theorem assignPermissions_idempotent (roleId : Z) (permissionIds : list Z)
    (d d' : Database) (result : Role * list Permission) :
  assignPermissions roleId permissionIds d = Return result d' →
  assignPermissions roleId permissionIds d' = Return result d'
  ∧ (NoDup (permission_role d) → NoDup (permission_role d')).
Proof.
  intros Hrun. pose proof (assignPermissions_Return _ _ _ _ _ Hrun) as ->.
  destruct (sync_well_formed (permission_role d) roleId permissionIds)
    as (Hnodup & Hagain & _).
  split; [|exact Hnodup].
  revert Hrun. unfold assignPermissions, mbind, M_bind, bind.
  unfold findOrFail at 1 3. cbn [roles set_permission_role].
  destruct (List.find _ (roles d)) as [role|] eqn:Hfind; [|done].
  assert (Hvalid : ∀ d0, permissions d0 = permissions d →
            validatePermissionIds permissionIds d0
            = match validatePermissionIds permissionIds d with
              | Return b _ => Return b d0
              | Throw e _ => Throw e d0
              end).
  { intros d0 Hsame. unfold validatePermissionIds, mbind, M_bind, bind, get_db.
    destruct permissionIds; [done|]. rewrite Hsame. by case_decide. }
  rewrite (Hvalid (set_permission_role _ d)) by done.
  destruct (validatePermissionIds permissionIds d) as [b d0|e d0] eqn:Hchecked; [|done].
  apply validatePermissionIds_Return in Hchecked as ->.
  unfold sync_permissions, modify_db, findOrFail. cbn [roles set_permission_role permission_role].
  rewrite Hfind, Hagain.
  unfold load_permissions, mbind, M_bind, bind, get_db, mret, M_ret, ret.
  intros [= <-]. reflexivity.
Qed.

Lemma assignPermissions_idempotent_witness :
  ∃ result d',
    assignPermissions 2 [3; 1] example_database = Return result d'
    ∧ assignPermissions 2 [3; 1] d' = Return result d'
    ∧ NoDup (permission_role d').
Proof.
  destruct (assignPermissions 2 [3; 1] example_database) as [result d'|e d'] eqn:Hrun;
    [|vm_compute in Hrun; discriminate Hrun].
  destruct (assignPermissions_idempotent 2 [3; 1] example_database d' result Hrun)
    as [Hagain Hnodup].
  exists result, d'. split; [reflexivity|]. split; [exact Hagain|].
  apply Hnodup. apply (bool_decide_unpack _). vm_compute. exact I.
Defined.

End AssignAgain.

(** ** Creating and updating roles *)

Section RoleWrites.

Import RoleService.

(** X3.  With a name no role has, and a permission list (possibly absent
    or empty) without repetition whose ids all exist, [createRole] appends
    one role carrying the next id, the submitted name and description and
    the submitted system flag (false when absent), attaches exactly the
    listed permissions to it, returns the role with those permissions
    loaded, and changes nothing else; the controller answers 201. *)
Theorem createRole_creates_role_with_permissions (data : RoleData) (w : World) :
  let d := db w in
  let ids := default [] (rd_permission_ids data) in
  let role := {| role_id := roles_next_id d; role_name := rd_name data;
                 role_description := rd_description data;
                 role_is_system := default false (rd_is_system data) |} in
  NoDup (perm_id <$> permissions d) →
  (∀ r, r ∈ roles d → role_name r ≠ rd_name data) →
  (∀ i, (i, roles_next_id d) ∉ permission_role d) →
  NoDup ids →
  (∀ i, i ∈ ids → ∃ p, p ∈ permissions d ∧ perm_id p = i) →
  ∃ d' perms,
    createRole data d = Return (role, perms) d'
    ∧ roles d' = roles d ++ [role]
    ∧ roles_next_id d' = roles_next_id d + 1
    ∧ (∀ i, (i, role_id role) ∈ permission_role d' ↔ i ∈ ids)
    ∧ (∀ row, row.2 ≠ role_id role →
              row ∈ permission_role d' ↔ row ∈ permission_role d)
    ∧ (∀ p, p ∈ perms ↔ p ∈ permissions d ∧ perm_id p ∈ ids)
    ∧ permissions d' = permissions d ∧ users d' = users d
    ∧ role_user d' = role_user d ∧ audit_logs d' = audit_logs d
    ∧ resp_status (RoleController.store data w).1 = 201.
Proof.
  intros d ids role Hkey Hfresh Hnew Hids Hexist. subst d.
  assert (Hrun : ∃ d' perms,
    createRole data (db w) = Return (role, perms) d'
    ∧ roles d' = roles (db w) ++ [role]
    ∧ roles_next_id d' = roles_next_id (db w) + 1
    ∧ permissions d' = permissions (db w) ∧ users d' = users (db w)
    ∧ role_user d' = role_user (db w) ∧ audit_logs d' = audit_logs (db w)
    ∧ perms = role_permissions d' (role_id role)
    ∧ (permission_role d' = permission_role (db w) ∧ ids = []
       ∨ permission_role d' = sync (permission_role (db w)) (role_id role) ids)).
  { unfold createRole, mbind, M_bind, bind, get_db.
    rewrite decide_False.
    2:{ intros (r & Hr & Hname)%Exists_exists. by apply (Hfresh r). }
    unfold DB_transaction, Role_create. fold role.
    subst ids. destruct (rd_permission_ids data) as [[|i ids]|]; cbn [default] in *.
    - do 2 eexists. split; [reflexivity|]. repeat split; by left.
    - unfold validatePermissionIds, mbind, M_bind, bind, get_db.
      cbn [permissions set_roles].
      rewrite decide_False by (by apply Nat.eq_dne, existing_count_eq).
      do 2 eexists. split; [reflexivity|]. repeat split; by right.
    - do 2 eexists. split; [reflexivity|]. repeat split; by left. }
  destruct Hrun as (d' & perms & Hrun & Hroles & Hnext & Hperms & Husers & Hpivot
                    & Hlogs & Hloaded & Hrows).
  subst perms.
  assert (Hattached : ∀ i, (i, role_id role) ∈ permission_role d' ↔ i ∈ ids).
  { intros i. destruct Hrows as [[-> ->] | ->]; [|apply sync_parent].
    split; [intros Hi; by destruct (Hnew i) | intros Hi; by destruct (not_elem_of_nil _ Hi)]. }
  exists d', (role_permissions d' (role_id role)).
  split; [exact Hrun|]. split; [exact Hroles|]. split; [exact Hnext|].
  split; [exact Hattached|]. split; [|split].
  - intros row Hrow. destruct Hrows as [[-> _] | ->]; [done | by apply sync_other].
  - intros p. rewrite elem_of_role_permissions, Hperms, Hattached. done.
  - repeat split; try done.
    unfold RoleController.store. by rewrite Hrun.
Qed.

Lemma createRole_creates_role_with_permissions_witness :
  ∃ d' perms,
    createRole (guest_role [3; 1]) example_database
    = Return ({| role_id := 4; role_name := "Guest"; role_description := None;
                 role_is_system := false |}, perms) d'
    ∧ role_id <$> roles d' = [1; 2; 3; 4]
    ∧ (∀ i, (i, 4) ∈ permission_role d' ↔ i ∈ [3; 1]).
Proof.
  destruct (createRole_creates_role_with_permissions (guest_role [3; 1]) example_world)
    as (d' & perms & Hrun & Hroles & _ & Hattached & _).
  - apply (bool_decide_unpack _). vm_compute. exact I.
  - intros r Hr. cbn in Hr.
    repeat (apply elem_of_cons in Hr as [->|Hr]); try discriminate.
    by destruct (not_elem_of_nil _ Hr).
  - intros i Hi. cbn in Hi.
    repeat (apply elem_of_cons in Hi as [[=]|Hi]).
    by destruct (not_elem_of_nil _ Hi).
  - apply (bool_decide_unpack _). vm_compute. exact I.
  - intros i Hi. cbn in Hi.
    repeat (apply elem_of_cons in Hi as [->|Hi]);
      [exists {| perm_id := 3; perm_name := "roles.view"; perm_description := None;
                 perm_module := "roles" |}
      |exists {| perm_id := 1; perm_name := "users.view"; perm_description := None;
                 perm_module := "users" |}
      |by destruct (not_elem_of_nil _ Hi)];
      (split; [apply (bool_decide_unpack _); vm_compute; exact I | reflexivity]).
  - exists d', perms. split; [exact Hrun|]. split; [by rewrite Hroles | exact Hattached].
Defined.

End RoleWrites.

Section RoleUpdates.

Import RoleService.

Lemma find_replaced (id : Z) (role new : Role) (rs : list Role) :
  role_id new = id →
  List.find (λ r, bool_decide (role_id r = id)) rs = Some role →
  List.find (λ r, bool_decide (role_id r = id))
    ((λ r, if decide (role_id r = role_id new) then new else r) <$> rs) = Some new.
Proof.
  intros Hnew. induction rs as [|r rs IH]; [done|].
  cbn [List.find fmap list_fmap]. rewrite Hnew.
  destruct (decide (role_id r = id)) as [Hr|Hr].
  - rewrite bool_decide_eq_true_2 by done. by rewrite bool_decide_eq_true_2.
  - rewrite !bool_decide_eq_false_2 by done. rewrite Hnew in IH. exact IH.
Qed.

Lemma updateRole_outcome (id : Z) (role : Role) (data : RoleUpdate) (d : Database) :
  findOrFail id d = Return role d →
  (rename_conflict d id role data →
   updateRole id data d = Throw duplicate_name_error d)
  ∧ (¬ rename_conflict d id role data →
     updateRole id data d
     = Return (updated_role role data, role_permissions d id)
         (set_roles
            ((λ r, if decide (role_id r = id) then updated_role role data else r)
               <$> roles d) (roles_next_id d) d)).
Proof.
  intros Hfind.
  pose proof (findOrFail_Return _ _ _ _ Hfind) as (_ & _ & Hid).
  unfold updateRole, mbind, M_bind, bind, get_db. rewrite Hfind.
  assert (Hwrite :
    DB_transaction
      (λ d0, match write_role (updated_role role data) d0 with
             | Return _ d1 =>
                 match findOrFail id d1 with
                 | Return fresh d2 => load_permissions fresh d2
                 | Throw e d2 => Throw e d2
                 end
             | Throw e d1 => Throw e d1
             end) d
    = Return (updated_role role data, role_permissions d id)
        (set_roles
           ((λ r, if decide (role_id r = id) then updated_role role data else r)
              <$> roles d) (roles_next_id d) d)).
  { unfold DB_transaction, write_role, modify_db.
    unfold findOrFail in Hfind.
    destruct (List.find _ (roles d)) as [found|] eqn:Hfound; [|done].
    injection Hfind as ->.
    unfold findOrFail. cbn [roles set_roles].
    rewrite (find_replaced id role (updated_role role data) (roles d) Hid Hfound).
    unfold load_permissions, mbind, M_bind, bind, get_db, mret, M_ret, ret.
    cbn [role_id updated_role]. rewrite Hid. reflexivity. }
  unfold rename_conflict. split.
  - destruct (ru_name data) as [name|]; [|done].
    intros (Hempty & Hne & Hdup). rewrite Hempty.
    rewrite bool_decide_eq_false_2 by done. cbn [negb andb].
    by rewrite decide_True.
  - intros Hnone.
    destruct (ru_name data) as [name|] eqn:Hname; [|exact Hwrite].
    destruct (empty_string name) eqn:Hempty; cbn [negb andb]; [exact Hwrite|].
    case_bool_decide as Hsame; cbn [negb]; [exact Hwrite|].
    rewrite decide_False; [exact Hwrite|].
    intros Hdup. by apply Hnone.
Qed.

(** X6.  [updateRole] keeps role names unique: renaming a role to a name
    another role has is rejected with the validation error on [name] and
    the store is unchanged, and when names identify roles before a
    successful update whose payload has no name or a name that PHP does not
    treat as empty, they still do afterwards. *)
Theorem updateRole_keeps_names_unique (id : Z) (data : RoleUpdate) (d : Database) :
  (∀ role name other,
     findOrFail id d = Return role d →
     ru_name data = Some name → empty_string name = false →
     name ≠ role_name role →
     other ∈ roles d → role_name other = name → role_id other ≠ id →
     updateRole id data d = Throw duplicate_name_error d)
  ∧ (∀ result d',
       unique_role_names d →
       (∀ name, ru_name data = Some name → empty_string name = false) →
       updateRole id data d = Return result d' →
       unique_role_names d').
Proof.
  split.
  - intros role name other Hfind Hname Hempty Hne Hother Hsame Hid.
    apply (updateRole_outcome id role data d Hfind).
    unfold rename_conflict. rewrite Hname. repeat split; try done.
    apply Exists_exists. eauto.
  - intros result d' Hunique Hnonempty Hrun.
    destruct (findOrFail id d) as [role d0|e d0] eqn:Hfind.
    2:{ unfold updateRole, mbind, M_bind, bind in Hrun. by rewrite Hfind in Hrun. }
    pose proof (findOrFail_Return _ _ _ _ Hfind) as (-> & Hrole & Hid).
    destruct (updateRole_outcome id role data d Hfind) as [Hreject Haccept].
    destruct (decide (rename_conflict d id role data)) as [Hconflict|Hfree].
    { rewrite (Hreject Hconflict) in Hrun. discriminate Hrun. }
    rewrite (Haccept Hfree) in Hrun. injection Hrun as _ <-.
    assert (Hname : ∀ other, other ∈ roles d → role_id other ≠ id →
                             role_name other ≠ role_name (updated_role role data)).
    { intros other Hother Hne Hsame. cbn [role_name updated_role] in Hsame.
      destruct (ru_name data) as [name|] eqn:Hpatch; cbn [default] in Hsame.
      - destruct (decide (name = role_name role)) as [->|Hrename].
        + apply Hne. rewrite <- Hid. by apply Hunique.
        + apply Hfree. unfold rename_conflict. rewrite Hpatch.
          split; [by apply Hnonempty|]. split; [done|].
          apply Exists_exists. eauto.
      - apply Hne. rewrite <- Hid. by apply Hunique. }
    intros r1 r2. cbn [roles set_roles].
    intros (o1 & -> & Ho1)%list_elem_of_fmap (o2 & -> & Ho2)%list_elem_of_fmap.
    destruct (decide (role_id o1 = id)) as [H1|H1],
             (decide (role_id o2 = id)) as [H2|H2]; intros Hsame.
    + done.
    + by destruct (Hname o2 Ho2 H2).
    + by destruct (Hname o1 Ho1 H1).
    + by apply Hunique.
Qed.

Lemma updateRole_keeps_names_unique_witness :
  updateRole 2 {| ru_name := Some "Administrator"; ru_description := None;
                  ru_is_system := None |} example_database
  = Throw duplicate_name_error example_database
  ∧ ∃ result d',
      updateRole 2 {| ru_name := Some "Reviewer"; ru_description := None;
                      ru_is_system := None |} example_database
      = Return result d'
      ∧ unique_role_names d'.
Proof.
  destruct (updateRole_keeps_names_unique 2
              {| ru_name := Some "Administrator"; ru_description := None;
                 ru_is_system := None |} example_database) as [Hreject _].
  destruct (updateRole_keeps_names_unique 2
              {| ru_name := Some "Reviewer"; ru_description := None;
                 ru_is_system := None |} example_database) as [_ Hkeep].
  split.
  - apply (Hreject {| role_id := 2; role_name := "Editor"; role_description := None;
                      role_is_system := false |}
                   "Administrator"
                   {| role_id := 1; role_name := "Administrator";
                      role_description := Some "Full system access";
                      role_is_system := true |}); try reflexivity; try discriminate.
    apply list_elem_of_here.
  - do 2 eexists. split; [vm_compute; reflexivity|].
    eapply Hkeep; [| |vm_compute; reflexivity].
    + intros r r' Hr Hr' Hsame. cbn in Hr, Hr'.
      repeat (apply elem_of_cons in Hr as [->|Hr]);
        try (by destruct (not_elem_of_nil _ Hr));
        repeat (apply elem_of_cons in Hr' as [->|Hr']);
        try (by destruct (not_elem_of_nil _ Hr')); done.
    + by intros name [= <-].
Defined.

End RoleUpdates.

Section RoleUpdateEffect.

Import RoleService.

(** X7.  [updateRole] has no guard on [is_system]: for any existing role,
    system or not, an update without a rename conflict overwrites exactly
    the fields present in the payload (the system flag included), keeps
    the id, leaves every other role and every other table as it was, and
    returns the updated role with its permissions.  The controller answers
    200 and evicts the cache entries of the role's members. *)
Theorem updateRole_overwrites_present_fields (id : Z) (role : Role)
    (data : RoleUpdate) (w : World) :
  findOrFail id (db w) = Return role (db w) →
  ¬ rename_conflict (db w) id role data →
  ∃ d',
    updateRole id data (db w)
    = Return (updated_role role data, role_permissions (db w) id) d'
    ∧ (∀ r, r ∈ roles d' → role_id r = id → r = updated_role role data)
    ∧ (∀ r, role_id r ≠ id → r ∈ roles d' ↔ r ∈ roles (db w))
    ∧ permissions d' = permissions (db w) ∧ users d' = users (db w)
    ∧ role_user d' = role_user (db w)
    ∧ permission_role d' = permission_role (db w)
    ∧ audit_logs d' = audit_logs (db w)
    ∧ resp_status (RoleController.update data id w).1 = 200
    ∧ db (RoleController.update data id w).2 = d'
    ∧ ∀ u, (id, u) ∈ role_user (db w) →
           cache (RoleController.update data id w).2
             !! PermissionService.getUserPermissionsCacheKey u = None.
Proof.
  intros Hfind Hfree.
  destruct (updateRole_outcome id role data (db w) Hfind) as [_ Hrun].
  specialize (Hrun Hfree). eexists. split; [exact Hrun|].
  cbn [roles set_roles permissions users role_user permission_role audit_logs].
  split; [|split].
  - intros r (o & -> & Ho)%list_elem_of_fmap Hr.
    case_decide as Ho'; [done|]. by destruct Ho'.
  - intros r Hr. rewrite list_elem_of_fmap. split.
    + intros (o & -> & Ho). case_decide as Ho'; [|done].
      cbn [role_id updated_role] in Hr.
      pose proof (findOrFail_Return _ _ _ _ Hfind) as (_ & _ & Hid). by destruct Hr.
    + intros Hin. exists r. by rewrite decide_False.
  - repeat split; try done.
    + unfold RoleController.update. by rewrite Hrun.
    + unfold RoleController.update. rewrite Hrun. cbn [snd].
      by destruct (clear_role_users_lookup id (RoleController.with_db w
        (set_roles ((λ r, if decide (role_id r = id) then updated_role role data else r)
                      <$> roles (db w)) (roles_next_id (db w)) (db w)))) as (-> & _).
    + intros u Hu. unfold RoleController.update. rewrite Hrun. cbn [snd].
      destruct (clear_role_users_lookup id (RoleController.with_db w
        (set_roles ((λ r, if decide (role_id r = id) then updated_role role data else r)
                      <$> roles (db w)) (roles_next_id (db w)) (db w)))) as (_ & Hgone & _).
      by apply Hgone.
Qed.

Lemma updateRole_overwrites_present_fields_witness :
  ∃ perms d',
    updateRole 1 {| ru_name := Some "Root"; ru_description := Some None;
                    ru_is_system := Some false |} example_database
    = Return ({| role_id := 1; role_name := "Root"; role_description := None;
                 role_is_system := false |}, perms) d'
    ∧ cache (RoleController.update
               {| ru_name := Some "Root"; ru_description := Some None;
                  ru_is_system := Some false |} 1 stale_world).2
        !! PermissionService.getUserPermissionsCacheKey 7 = None.
Proof.
  destruct (updateRole_overwrites_present_fields 1
              {| role_id := 1; role_name := "Administrator";
                 role_description := Some "Full system access";
                 role_is_system := true |}
              {| ru_name := Some "Root"; ru_description := Some None;
                 ru_is_system := Some false |} stale_world eq_refl)
    as (d' & Hrun & _ & _ & _ & _ & _ & _ & _ & _ & _ & Hgone).
  - intros (_ & _ & Hdup). apply Exists_exists in Hdup as (r & Hr & Hname & _).
    cbn in Hr. repeat (apply elem_of_cons in Hr as [->|Hr]); try discriminate.
    by destruct (not_elem_of_nil _ Hr).
  - do 2 eexists. split; [exact Hrun|]. apply Hgone.
    apply (bool_decide_unpack _). vm_compute. exact I.
Defined.

End RoleUpdateEffect.

(** ** The user service *)

Section Users.

Import UserService.

Variable Hash_make : string → string.

Lemma user_findOrFail_Return (id : Z) (d d' : Database) (u : User) :
  findOrFail id d = Return u d' →
  d' = d ∧ u ∈ users d ∧ user_id u = id ∧ trashed u = false.
Proof.
  unfold findOrFail. destruct (List.find _ _) as [u'|] eqn:Hfind; [|done].
  intros [= -> ->]. apply find_some in Hfind as [Hin Hu].
  apply andb_true_iff in Hu as [Hid Hlive].
  apply bool_decide_eq_true in Hid. apply negb_true_iff in Hlive.
  split; [done|]. split; [by apply list_elem_of_In|done].
Qed.

Lemma updateUser_outcome (id : Z) (user : User) (data : UserData) (d : Database) :
  findOrFail id d = Return user d →
  (email_conflict d id user data →
   updateUser Hash_make id data d = Throw email_taken_error d)
  ∧ (¬ email_conflict d id user data →
     let fresh := updated_row Hash_make user data in
     let d' := store_after_update d id fresh data in
     updateUser Hash_make id data d = Return (fresh, user_roles d' id) d').
Proof.
  intros Hfind.
  pose proof (user_findOrFail_Return _ _ _ _ Hfind) as (_ & _ & Hid & _).
  unfold updateUser, mbind, M_bind, bind, get_db. rewrite Hfind.
  assert (Hwrite :
    DB_transaction
      (λ d0, match write_row (updated_row Hash_make user data) d0 with
             | Return _ d1 =>
                 match
                   match ud_role_ids data with
                   | Some roleIds => sync_roles (user_id user) roleIds
                   | None => mret ()
                   end d1
                 with
                 | Return _ d2 => load_roles (updated_row Hash_make user data) d2
                 | Throw e d2 => Throw e d2
                 end
             | Throw e d1 => Throw e d1
             end) d
    = Return (updated_row Hash_make user data,
              user_roles (store_after_update d id (updated_row Hash_make user data) data) id)
        (store_after_update d id (updated_row Hash_make user data) data)).
  { unfold DB_transaction, write_row, modify_db, store_after_update, load_roles,
      sync_roles, modify_db, mbind, M_bind, bind, get_db, mret, M_ret, ret.
    cbn [user_id updated_row]. rewrite Hid.
    by destruct (ud_role_ids data). }
  unfold email_conflict. split.
  - destruct (ud_email data) as [email|]; [|done].
    intros (Hempty & Hne & Hdup). rewrite Hempty.
    rewrite bool_decide_eq_false_2 by done. cbn [negb andb].
    by rewrite decide_True.
  - intros Hnone. cbv zeta.
    destruct (ud_email data) as [email|] eqn:Hemail; [|exact Hwrite].
    destruct (empty_string email) eqn:Hempty; cbn [negb andb]; [exact Hwrite|].
    case_bool_decide as Hsame; cbn [negb]; [exact Hwrite|].
    rewrite decide_False; [exact Hwrite|].
    intros Hdup. by apply Hnone.
Qed.

(** X8.  A successful [updateUser] replaces the user's role membership by
    the submitted list (and leaves it alone when the payload has no
    [role_ids]), never touches another user's rows or roles, stores the
    hash of a submitted password, and returns the user with the roles
    attached afterwards.  [assignRoles] replaces the membership in the same
    way. *)
Theorem updateUser_replaces_roles (id : Z) (user : User) (data : UserData)
    (d : Database) :
  findOrFail id d = Return user d →
  ¬ email_conflict d id user data →
  ∃ d' roles',
    updateUser Hash_make id data d = Return (updated_row Hash_make user data, roles') d'
    ∧ (∀ roleIds, ud_role_ids data = Some roleIds →
                  ∀ rid, (rid, id) ∈ role_user d' ↔ rid ∈ roleIds)
    ∧ (ud_role_ids data = None → role_user d' = role_user d)
    ∧ (∀ row, row.2 ≠ id → row ∈ role_user d' ↔ row ∈ role_user d)
    ∧ (∀ r, r ∈ roles' ↔ r ∈ roles d ∧ (role_id r, id) ∈ role_user d')
    ∧ (∀ u, user_id u ≠ id → u ∈ users d' ↔ u ∈ users d)
    ∧ (∀ password, ud_password data = Some password →
                   user_password (updated_row Hash_make user data) = Hash_make password)
    ∧ roles d' = roles d ∧ permissions d' = permissions d
    ∧ permission_role d' = permission_role d ∧ audit_logs d' = audit_logs d
    ∧ ∀ roleIds,
        ∃ d2 roles2,
          assignRoles id roleIds d = Return (user, roles2) d2
          ∧ (∀ rid, (rid, id) ∈ role_user d2 ↔ rid ∈ roleIds)
          ∧ (∀ row, row.2 ≠ id → row ∈ role_user d2 ↔ row ∈ role_user d)
          ∧ users d2 = users d.
Proof.
  intros Hfind Hfree.
  pose proof (user_findOrFail_Return _ _ _ _ Hfind) as (_ & Huser & Hid & _).
  destruct (updateUser_outcome id user data d Hfind) as [_ Hrun].
  specialize (Hrun Hfree). cbv zeta in Hrun.
  do 2 eexists. split; [exact Hrun|].
  assert (Hroles : roles (store_after_update d id (updated_row Hash_make user data) data)
                   = roles d)
    by (unfold store_after_update; by destruct (ud_role_ids data)).
  split; [|split; [|split; [|split; [|split; [|split]]]]].
  - intros roleIds Hids rid. unfold store_after_update. rewrite Hids.
    apply sync_parent.
  - intros Hnone. unfold store_after_update. by rewrite Hnone.
  - intros row Hrow. unfold store_after_update.
    destruct (ud_role_ids data); [by apply sync_other | done].
  - intros r. by rewrite elem_of_user_roles, Hroles.
  - intros u Hu.
    assert (users (store_after_update d id (updated_row Hash_make user data) data)
            = (λ u, if decide (user_id u = id) then updated_row Hash_make user data else u)
                <$> users d) as ->
      by (unfold store_after_update; by destruct (ud_role_ids data)).
    rewrite list_elem_of_fmap. split.
    + intros (o & -> & Ho). case_decide as Ho'; [|done].
      cbn [user_id updated_row] in Hu. by destruct Hu.
    + intros Hin. exists u. by rewrite decide_False.
  - intros password Hpassword. cbn [user_password updated_row]. by rewrite Hpassword.
  - split; [exact Hroles|].
    split; [unfold store_after_update; by destruct (ud_role_ids data)|].
    split; [unfold store_after_update; by destruct (ud_role_ids data)|].
    split; [unfold store_after_update; by destruct (ud_role_ids data)|].
    intros roleIds. unfold assignRoles, mbind, M_bind, bind. rewrite Hfind.
    do 2 eexists. split; [reflexivity|]. cbn [role_user set_role_user users].
    rewrite Hid. split; [intros rid; apply sync_parent|].
    split; [intros row Hrow; by apply sync_other | done].
Qed.

End Users.

Lemma updateUser_replaces_roles_witness :
  ∃ d' roles',
    UserService.updateUser example_hash 7
      {| UserService.ud_name := None; UserService.ud_email := None;
         UserService.ud_password := Some "correct horse";
         UserService.ud_avatar := None; UserService.ud_is_active := None;
         UserService.ud_role_ids := Some [2; 3] |} example_database
    = Return ({| user_id := 7; user_name := "Ada"; user_email := "ada@example.com";
                 user_password := "$2y$correct horse"; user_avatar := None;
                 user_is_active := true; user_email_verified_at := None;
                 user_deleted_at := None |}, roles') d'
    ∧ ∀ rid, (rid, 7) ∈ role_user d' ↔ rid ∈ [2; 3].
Proof.
  destruct (updateUser_replaces_roles example_hash 7
              {| user_id := 7; user_name := "Ada"; user_email := "ada@example.com";
                 user_password := "$2y$ada"; user_avatar := None;
                 user_is_active := true; user_email_verified_at := None;
                 user_deleted_at := None |}
              {| UserService.ud_name := None; UserService.ud_email := None;
                 UserService.ud_password := Some "correct horse";
                 UserService.ud_avatar := None; UserService.ud_is_active := None;
                 UserService.ud_role_ids := Some [2; 3] |}
              example_database eq_refl)
    as (d' & roles' & Hrun & Hroles & _).
  - intros [].
  - exists d', roles'. split; [exact Hrun|]. by apply Hroles.
Defined.

Section UserEmails.

Import UserService.

Variable Hash_make : string → string.
Variable users_next_id : Database → Z.
Variable now : Z.

(** X9.  [updateUser] keeps the emails of the users that are not
    soft-deleted unique: changing the email to one another such user has is
    rejected with the validation error on [email] and the store is
    unchanged, and when emails identify those users before a successful
    update whose payload has no email or an email that PHP does not treat
    as empty, they still do afterwards. *)
Theorem updateUser_keeps_emails_unique (id : Z) (data : UserData) (d : Database) :
  (∀ user email other,
     findOrFail id d = Return user d →
     ud_email data = Some email → empty_string email = false →
     email ≠ user_email user →
     other ∈ users d → user_email other = email → user_id other ≠ id →
     trashed other = false →
     updateUser Hash_make id data d = Throw email_taken_error d)
  ∧ (∀ result d',
       unique_live_emails d →
       (∀ email, ud_email data = Some email → empty_string email = false) →
       updateUser Hash_make id data d = Return result d' →
       unique_live_emails d').
Proof.
  split.
  - intros user email other Hfind Hemail Hempty Hne Hother Hsame Hid Hlive.
    apply (updateUser_outcome Hash_make id user data d Hfind).
    unfold email_conflict. rewrite Hemail. repeat split; try done.
    apply Exists_exists. eauto.
  - intros result d' Hunique Hnonempty Hrun.
    destruct (findOrFail id d) as [user d0|e d0] eqn:Hfind.
    2:{ unfold updateUser, mbind, M_bind, bind in Hrun. by rewrite Hfind in Hrun. }
    pose proof (user_findOrFail_Return _ _ _ _ Hfind) as (-> & Huser & Hid & Hlive).
    destruct (updateUser_outcome Hash_make id user data d Hfind) as [Hreject Haccept].
    destruct (decide (email_conflict d id user data)) as [Hconflict|Hfree].
    { rewrite (Hreject Hconflict) in Hrun. discriminate Hrun. }
    rewrite (Haccept Hfree) in Hrun. injection Hrun as _ <-.
    set (fresh := updated_row Hash_make user data).
    assert (Husers : users (store_after_update d id fresh data)
                     = (λ u, if decide (user_id u = id) then fresh else u) <$> users d)
      by (unfold store_after_update; by destruct (ud_role_ids data)).
    assert (Hemail : ∀ other, other ∈ users d → user_id other ≠ id →
                              trashed other = false →
                              user_email other ≠ user_email fresh).
    { intros other Hother Hne Holive Hsame. cbn [user_email updated_row fresh] in Hsame.
      destruct (ud_email data) as [email|] eqn:Hpatch; cbn [default] in Hsame.
      - destruct (decide (email = user_email user)) as [->|Hchange].
        + apply Hne. rewrite <- Hid. by apply Hunique.
        + apply Hfree. unfold email_conflict. rewrite Hpatch.
          split; [by apply Hnonempty|]. split; [done|].
          apply Exists_exists. eauto.
      - apply Hne. rewrite <- Hid. by apply Hunique. }
    intros u1 u2. rewrite Husers.
    intros (o1 & -> & Ho1)%list_elem_of_fmap (o2 & -> & Ho2)%list_elem_of_fmap.
    destruct (decide (user_id o1 = id)) as [H1|H1],
             (decide (user_id o2 = id)) as [H2|H2]; intros Hl1 Hl2 Hsame.
    + done.
    + by destruct (Hemail o2 Ho2 H2 Hl2).
    + by destruct (Hemail o1 Ho1 H1 Hl1).
    + by apply Hunique.
Qed.

(** X10.  [createUser] rejects an email that a user who is not
    soft-deleted has, with the validation error on [email] and an unchanged
    store.  Otherwise it succeeds: the returned user is stored, is not
    soft-deleted, has the submitted name and email, the hash of the
    submitted password, is active unless the payload says otherwise, and
    is marked verified exactly when the payload asks for it.  After a
    successful call every further [createUser] with the same email is
    rejected. *)
Theorem createUser_rejects_taken_email (data : UserCreate) (d : Database) :
  ((∃ u, u ∈ users d ∧ user_email u = uc_email data ∧ trashed u = false) →
   createUser Hash_make users_next_id now data d = Throw email_taken_error d)
  ∧ ((∀ u, u ∈ users d → trashed u = false → user_email u ≠ uc_email data) →
     ∃ user roles' d',
       createUser Hash_make users_next_id now data d = Return (user, roles') d'
       ∧ user ∈ users d'
       ∧ user_id user = users_next_id d
       ∧ user_name user = uc_name data
       ∧ user_email user = uc_email data
       ∧ user_password user = Hash_make (uc_password data)
       ∧ user_is_active user = default true (uc_is_active data)
       ∧ user_email_verified_at user
         = (if decide (uc_email_verified data = Some true) then Some now else None)
       ∧ trashed user = false
       ∧ (∀ data', uc_email data' = uc_email data →
                   createUser Hash_make users_next_id now data' d'
                   = Throw email_taken_error d')).
Proof.
  split.
  - intros (u & Hu & Hemail & Hlive).
    unfold createUser, mbind, M_bind, bind, get_db.
    rewrite decide_True; [done|]. apply Exists_exists. eauto.
  - intros Hfree.
    assert (Hreject : ∀ user d', user ∈ users d' → user_email user = uc_email data →
                                 trashed user = false →
                                 ∀ data', uc_email data' = uc_email data →
                                          createUser Hash_make users_next_id now data' d'
                                          = Throw email_taken_error d').
    { intros user d' Hin Hemail Hlive data' Hsame.
      unfold createUser, mbind, M_bind, bind, get_db.
      rewrite decide_True; [done|]. apply Exists_exists.
      exists user. rewrite Hsame. done. }
    unfold createUser, mbind, M_bind, bind, get_db.
    rewrite decide_False.
    2:{ intros (u & Hu & Hemail & Hlive)%Exists_exists. by apply (Hfree u). }
    unfold DB_transaction, User_create, sync_roles, write_row, modify_db, load_roles,
      mbind, M_bind, bind, get_db, mret, M_ret, ret.
    destruct (uc_role_ids data) as [[|i ids]|];
      destruct (uc_email_verified data) as [[|]|];
      (do 3 eexists; split; [reflexivity|];
       match goal with
       | |- ?user ∈ users ?d' ∧ _ =>
           assert (Hstored : user ∈ users d');
           [cbn [users set_users set_role_user]; try rewrite fmap_app;
            apply elem_of_app; right; cbn [fmap list_fmap user_id mark_verified];
            try rewrite decide_True by done; apply list_elem_of_here
           |split; [exact Hstored|]; repeat split; try done; by eapply Hreject]
       end).
Qed.

End UserEmails.

Lemma updateUser_keeps_emails_unique_witness :
  UserService.updateUser example_hash 8
    {| UserService.ud_name := None; UserService.ud_email := Some "ada@example.com";
       UserService.ud_password := None; UserService.ud_avatar := None;
       UserService.ud_is_active := None; UserService.ud_role_ids := None |}
    example_database
  = Throw UserService.email_taken_error example_database
  ∧ ∃ result d',
      UserService.updateUser example_hash 8
        {| UserService.ud_name := None; UserService.ud_email := Some "bob@example.org";
           UserService.ud_password := None; UserService.ud_avatar := None;
           UserService.ud_is_active := None; UserService.ud_role_ids := None |}
        example_database = Return result d'
      ∧ unique_live_emails d'.
Proof.
  destruct (updateUser_keeps_emails_unique example_hash 8
              {| UserService.ud_name := None;
                 UserService.ud_email := Some "ada@example.com";
                 UserService.ud_password := None; UserService.ud_avatar := None;
                 UserService.ud_is_active := None; UserService.ud_role_ids := None |}
              example_database) as [Hreject _].
  destruct (updateUser_keeps_emails_unique example_hash 8
              {| UserService.ud_name := None;
                 UserService.ud_email := Some "bob@example.org";
                 UserService.ud_password := None; UserService.ud_avatar := None;
                 UserService.ud_is_active := None; UserService.ud_role_ids := None |}
              example_database) as [_ Hkeep].
  split.
  - apply (Hreject
             {| user_id := 8; user_name := "Bob"; user_email := "bob@example.com";
                user_password := "$2y$bob"; user_avatar := None; user_is_active := true;
                user_email_verified_at := None; user_deleted_at := None |}
             "ada@example.com"
             {| user_id := 7; user_name := "Ada"; user_email := "ada@example.com";
                user_password := "$2y$ada"; user_avatar := None; user_is_active := true;
                user_email_verified_at := None; user_deleted_at := None |});
      try reflexivity; try discriminate.
    apply list_elem_of_here.
  - do 2 eexists. split; [vm_compute; reflexivity|].
    eapply Hkeep; [| |vm_compute; reflexivity].
    + intros u u' Hu Hu' _ _ Hsame. cbn in Hu, Hu'.
      repeat (apply elem_of_cons in Hu as [->|Hu]);
        try (by destruct (not_elem_of_nil _ Hu));
        repeat (apply elem_of_cons in Hu' as [->|Hu']);
        try (by destruct (not_elem_of_nil _ Hu')); done.
    + by intros email [= <-].
Defined.

Lemma createUser_rejects_taken_email_witness :
  UserService.createUser example_hash example_next_user_id 1000
    {| UserService.uc_name := "Eve"; UserService.uc_email := "ada@example.com";
       UserService.uc_password := "password1"; UserService.uc_avatar := None;
       UserService.uc_is_active := None; UserService.uc_role_ids := None;
       UserService.uc_email_verified := None |} example_database
  = Throw UserService.email_taken_error example_database
  ∧ ∃ user roles' d',
      UserService.createUser example_hash example_next_user_id 1000
        {| UserService.uc_name := "Eve"; UserService.uc_email := "eve@example.com";
           UserService.uc_password := "password1"; UserService.uc_avatar := None;
           UserService.uc_is_active := None; UserService.uc_role_ids := Some [2];
           UserService.uc_email_verified := Some true |} example_database
      = Return (user, roles') d'
      ∧ user_id user = 9 ∧ user_password user = "$2y$password1"
      ∧ user_email_verified_at user = Some 1000.
Proof.
  destruct (createUser_rejects_taken_email example_hash example_next_user_id 1000
              {| UserService.uc_name := "Eve"; UserService.uc_email := "ada@example.com";
                 UserService.uc_password := "password1"; UserService.uc_avatar := None;
                 UserService.uc_is_active := None; UserService.uc_role_ids := None;
                 UserService.uc_email_verified := None |} example_database)
    as [Hreject _].
  destruct (createUser_rejects_taken_email example_hash example_next_user_id 1000
              {| UserService.uc_name := "Eve"; UserService.uc_email := "eve@example.com";
                 UserService.uc_password := "password1"; UserService.uc_avatar := None;
                 UserService.uc_is_active := None; UserService.uc_role_ids := Some [2];
                 UserService.uc_email_verified := Some true |} example_database)
    as [_ Haccept].
  split.
  - apply Hreject.
    exists {| user_id := 7; user_name := "Ada"; user_email := "ada@example.com";
              user_password := "$2y$ada"; user_avatar := None; user_is_active := true;
              user_email_verified_at := None; user_deleted_at := None |}.
    split; [apply list_elem_of_here | split; reflexivity].
  - destruct Haccept as (user & roles' & d' & Hrun & _ & Hid & _ & _ & Hpassword & _
                         & Hverified & _).
    + intros u Hu _. cbn in Hu.
      repeat (apply elem_of_cons in Hu as [->|Hu]); try discriminate.
      by destruct (not_elem_of_nil _ Hu).
    + exists user, roles', d'. split; [exact Hrun|].
      split; [exact Hid|]. split; [exact Hpassword | exact Hverified].
Defined.

(** ** The permission cache, continued *)

Section CacheBehaviour.

Import PermissionService.

Lemma in_array_names (permission : string) (ps : list Permission) :
  in_array permission (perm_name <$> ps)
  = bool_decide (Exists (λ p, perm_name p = permission) ps).
Proof.
  unfold in_array. apply bool_decide_ext.
  rewrite list_elem_of_fmap, Exists_exists.
  split; intros (p & Hp & Hq); exists p; done.
Qed.

Lemma userHasPermission_hit (now user : Z) (permission : string) (w : World)
    (e : Cache.entry) :
  cache w !! getUserPermissionsCacheKey user = Some e →
  now < Cache.entry_expires e →
  userHasPermission now user permission w
  = (in_array permission (Cache.entry_value e), w).
Proof.
  intros He Hvalid. unfold userHasPermission, Cache.remember, Cache.get.
  rewrite He, decide_True by done. by destruct w.
Qed.

Lemma userHasPermission_miss (now user : Z) (permission : string) (w : World) :
  Cache.get (cache w) now (getUserPermissionsCacheKey user) = None →
  userHasPermission now user permission w
  = (in_array permission (perm_name <$> getUserPermissions (db w) user),
     {| db := db w;
        cache := <[getUserPermissionsCacheKey user :=
                     {| Cache.entry_value := perm_name <$> getUserPermissions (db w) user;
                        Cache.entry_expires := now + 3600 |}]> (cache w) |}).
Proof.
  intros Hmiss. unfold userHasPermission, Cache.remember. by rewrite Hmiss.
Qed.

(** X11.  A permission check leaves the store alone, touches no cache key
    but the user's own, and afterwards the cache holds for that user an
    entry that is valid at the time of the call and decides the answer: the
    entry already there when it was valid, and otherwise the names resolved
    from the store, expiring 3600 seconds later.  Until that entry expires,
    every check for the user is answered from it, whatever the store holds
    by then. *)
Theorem userHasPermission_caches (now : Z) (user : Z) (permission : string)
    (w : World) :
  let key := getUserPermissionsCacheKey user in
  let result := userHasPermission now user permission w in
  db result.2 = db w
  ∧ (∀ other, other ≠ key → cache result.2 !! other = cache w !! other)
  ∧ ∃ e,
      cache result.2 !! key = Some e
      ∧ now < Cache.entry_expires e
      ∧ result.1 = in_array permission (Cache.entry_value e)
      ∧ (Cache.get (cache w) now key = None →
         e = {| Cache.entry_value := perm_name <$> getUserPermissions (db w) user;
                Cache.entry_expires := now + 3600 |})
      ∧ (is_Some (Cache.get (cache w) now key) → result.2 = w)
      ∧ ∀ later permission' store,
          now ≤ later < Cache.entry_expires e →
          userHasPermission later user permission'
            {| db := store; cache := cache result.2 |}
          = (in_array permission' (Cache.entry_value e),
             {| db := store; cache := cache result.2 |}).
Proof.
  cbv zeta.
  destruct (Cache.get (cache w) now (getUserPermissionsCacheKey user)) as [v|] eqn:Hget.
  - unfold Cache.get in Hget.
    destruct (cache w !! getUserPermissionsCacheKey user) as [e|] eqn:He; [|done].
    case_decide as Hvalid; [|done]. injection Hget as <-.
    rewrite (userHasPermission_hit now user permission w e He Hvalid).
    cbn [fst snd]. split; [done|]. split; [done|].
    exists e. split; [done|]. split; [done|]. split; [done|].
    split; [done|]. split; [done|].
    intros later permission' store [Hfrom Huntil].
    by apply userHasPermission_hit.
  - rewrite (userHasPermission_miss now user permission w Hget).
    set (e := {| Cache.entry_value := perm_name <$> getUserPermissions (db w) user;
                 Cache.entry_expires := now + 3600 |}).
    cbn [fst snd db cache]. split; [done|].
    split; [intros other Hother; by rewrite lookup_insert_ne|].
    exists e. split; [apply lookup_insert_eq|].
    split; [cbn [Cache.entry_expires e]; lia|]. split; [done|]. split; [done|].
    split; [by intros [? ?]|].
    intros later permission' store [Hfrom Huntil].
    apply userHasPermission_hit; [apply lookup_insert_eq | done].
Qed.

Lemma userHasPermission_caches_witness :
  let w1 := (userHasPermission 1000 8 "users.edit" example_world).2 in
  (userHasPermission 1000 8 "users.edit" example_world).1 = false
  ∧ (userHasPermission 4599 8 "users.edit"
       {| db := set_role_user [(2, 8)] example_database; cache := cache w1 |}).1 = false
  ∧ (userHasPermission 4600 8 "users.edit"
       {| db := set_role_user [(2, 8)] example_database; cache := cache w1 |}).1 = true.
Proof.
  cbv zeta.
  destruct (userHasPermission_caches 1000 8 "users.edit" example_world)
    as (_ & _ & e & He & _ & Hanswer & Hfresh & _ & Hstale).
  specialize (Hfresh eq_refl). subst e.
  split; [exact Hanswer|]. split; [|vm_compute; reflexivity].
  rewrite Hstale; [reflexivity|]. cbn. lia.
Defined.



(** X13.  [clearUserPermissionsCache] evicts the entry of that user and of
    no other key, leaves the store alone, and the user's next check is
    computed from the store and agrees with [User::hasPermission]. *)
Theorem clearUserPermissionsCache_forces_fresh_check (user : Z) (w : World) :
  let w' := clearUserPermissionsCache user w in
  db w' = db w
  ∧ cache w' !! getUserPermissionsCacheKey user = None
  ∧ (∀ other, other ≠ user →
              cache w' !! getUserPermissionsCacheKey other
              = cache w !! getUserPermissionsCacheKey other)
  ∧ (∀ key, key ≠ getUserPermissionsCacheKey user → cache w' !! key = cache w !! key)
  ∧ ∀ now permission,
      (userHasPermission now user permission w').1
      = UserModel.hasPermission (db w) user permission.
Proof.
  cbv zeta. unfold clearUserPermissionsCache, Cache.forget. cbn [db cache].
  split; [done|]. split; [apply lookup_delete_eq|].
  split; [|split].
  - intros other Hother. apply lookup_delete_ne.
    intros Heq. by apply getUserPermissionsCacheKey_inj in Heq.
  - intros key Hkey. by apply lookup_delete_ne.
  - intros now permission. rewrite userHasPermission_miss.
    + cbn [fst db]. apply in_array_names.
    + unfold Cache.get. cbn [cache]. by rewrite lookup_delete_eq.
Qed.

Lemma clearUserPermissionsCache_forces_fresh_check_witness :
  (userHasPermission 1000 8 "users.edit" stale_world).1 = true
  ∧ (userHasPermission 1000 8 "users.edit"
       (clearUserPermissionsCache 8 stale_world)).1 = false
  ∧ cache (clearUserPermissionsCache 8 stale_world) !! getUserPermissionsCacheKey 7
    = cache stale_world !! getUserPermissionsCacheKey 7.
Proof.
  destruct (clearUserPermissionsCache_forces_fresh_check 8 stale_world)
    as (_ & _ & Hothers & _ & Hfresh).
  split; [vm_compute; reflexivity|]. split; [by rewrite Hfresh|].
  by apply Hothers.
Defined.

End CacheBehaviour.

(** ** The permission middleware *)

Section Guard.

Import PermissionService.

Lemma userHasPermission_db (now user : Z) (permission : string) (w : World) :
  db (userHasPermission now user permission w).2 = db w.
Proof.
  unfold userHasPermission, Cache.remember.
  by destruct (Cache.get _ _ _).
Qed.

(** X14.  [CheckPermission] answers 401 without touching anything when the
    request has no principal, and 403 with an unchanged store when the
    permission check fails; in both cases the answer does not depend on the
    downstream handler.  When the check succeeds the answer is the
    downstream handler's, run on the unchanged store.  With no valid cache
    entry, the check is decided by [User::hasPermission]. *)
Theorem CheckPermission_guards_handler (now : Z) (request : Request)
    (next : Request → World → Response * World) (permission : string) (w : World) :
  (req_user request = None →
   ∀ other, CheckPermission.handle now request other permission w
            = (CheckPermission.unauthenticated, w))
  ∧ (∀ user, req_user request = Some user →
       let checked := userHasPermission now user permission w in
       db checked.2 = db w
       ∧ (checked.1 = false →
          ∀ other, CheckPermission.handle now request other permission w
                   = (CheckPermission.forbidden, checked.2))
       ∧ (checked.1 = true →
          CheckPermission.handle now request next permission w
          = next request checked.2)
       ∧ (Cache.get (cache w) now (getUserPermissionsCacheKey user) = None →
          checked.1 = UserModel.hasPermission (db w) user permission))
  ∧ resp_status CheckPermission.unauthenticated = 401
  ∧ resp_status CheckPermission.forbidden = 403.
Proof.
  split; [|split; [|done]].
  - intros Hnone other. unfold CheckPermission.handle. by rewrite Hnone.
  - intros user Huser. cbv zeta. unfold CheckPermission.handle. rewrite Huser.
    pose proof (userHasPermission_db now user permission w) as Hdb.
    destruct (userHasPermission now user permission w) as [granted w1] eqn:Hcheck.
    cbn [fst snd] in *. split; [exact Hdb|].
    split; [by intros ->|]. split; [by intros ->|].
    intros Hcold. rewrite (userHasPermission_miss now user permission w Hcold) in Hcheck.
    injection Hcheck as <- _. apply in_array_names.
Qed.

Lemma CheckPermission_guards_handler_witness :
  (CheckPermission.handle 1000 anonymous_request destroy_next "roles.delete"
     example_world).1 = CheckPermission.unauthenticated
  ∧ (CheckPermission.handle 1000 ada_request destroy_next "roles.delete"
       example_world).1 = CheckPermission.forbidden
  ∧ resp_status (CheckPermission.handle 1000 ada_request destroy_next "roles.view"
                   example_world).1 = 200.
Proof.
  destruct (CheckPermission_guards_handler 1000 anonymous_request destroy_next
              "roles.delete" example_world) as (Hanonymous & _).
  destruct (CheckPermission_guards_handler 1000 ada_request destroy_next
              "roles.delete" example_world) as (_ & Hdenied & _).
  destruct (CheckPermission_guards_handler 1000 ada_request destroy_next
              "roles.view" example_world) as (_ & Hgranted & _).
  specialize (Hdenied 7 eq_refl). specialize (Hgranted 7 eq_refl).
  cbv zeta in Hdenied, Hgranted.
  destruct Hdenied as (_ & Hdenied & _). destruct Hgranted as (_ & _ & Hgranted & _).
  split; [by rewrite (Hanonymous eq_refl)|].
  split; [by rewrite (Hdenied eq_refl)|].
  rewrite (Hgranted eq_refl). vm_compute. reflexivity.
Defined.

(** X15.  A request that [CheckPermission] turns away is never audited:
    when the audit middleware runs around the permission middleware and the
    request has no principal or fails the permission check, the answer is
    the 401 or 403 of the guard and the audit trail is as it was. *)
Theorem denied_request_is_not_audited (intval : value → Z) (now : Z)
    (request : Request) (next : Request → World → Response * World)
    (permission : string) (w : World) :
  let guarded := λ r w', CheckPermission.handle now r next permission w' in
  let result := AuditLogger.handle intval request guarded w in
  (req_user request = None →
   result = (CheckPermission.unauthenticated, w))
  ∧ (∀ user, req_user request = Some user →
             (userHasPermission now user permission w).1 = false →
             result.1 = CheckPermission.forbidden
             ∧ db result.2 = db w
             ∧ audit_logs (db result.2) = audit_logs (db w)).
Proof.
  cbv zeta. unfold AuditLogger.handle, CheckPermission.handle. split.
  - intros Hnone. rewrite Hnone.
    unfold AuditLogger.shouldLog. by rewrite Hnone.
  - intros user Huser Hdenied. rewrite Huser.
    pose proof (userHasPermission_db now user permission w) as Hdb.
    destruct (userHasPermission now user permission w) as [granted w1].
    cbn [fst snd] in *. subst granted.
    assert (AuditLogger.shouldLog request CheckPermission.forbidden = false) as ->.
    { apply not_true_iff_false. intros Hlog.
      apply shouldLog_spec in Hlog as (_ & _ & _ & Hstatus).
      cbn in Hstatus. lia. }
    cbn [fst snd]. by rewrite Hdb.
Qed.

Lemma denied_request_is_not_audited_witness :
  let guarded := λ r w', CheckPermission.handle 1000 r destroy_next "roles.delete" w' in
  AuditLogger.handle example_intval anonymous_request guarded example_world
  = (CheckPermission.unauthenticated, example_world)
  ∧ audit_logs (db (AuditLogger.handle example_intval ada_request guarded
                      example_world).2) = [].
Proof.
  cbv zeta.
  destruct (denied_request_is_not_audited example_intval 1000 anonymous_request
              destroy_next "roles.delete" example_world) as [Hanonymous _].
  destruct (denied_request_is_not_audited example_intval 1000 ada_request
              destroy_next "roles.delete" example_world) as [_ Hdenied].
  cbv zeta in Hanonymous, Hdenied.
  split; [by apply Hanonymous|].
  by destruct (Hdenied 7 eq_refl eq_refl) as (_ & _ & ->).
Defined.

End Guard.

(** ** Redaction, continued *)

Section RedactionMore.

Import AuditLogService.

Lemma array_set_same (a : php_array) (k : string) (v : value) :
  array_get a k = Some v → array_set a k v = a.
Proof.
  induction a as [|[k0 v0] a IH]; cbn [array_get array_set]; [done|].
  case_decide as Hk; [by intros [= ->]; subst k0|].
  intros Hget. by rewrite IH.
Qed.

Lemma redact_fields_fixed (fields : list string) (a : php_array) :
  (∀ f, f ∈ fields → isset a f = true → array_get a f = Some REDACTED) →
  foldl redact_field a fields = a.
Proof.
  induction fields as [|f fields IH]; intros Hdone; [done|].
  cbn [foldl].
  assert (redact_field a f = a) as ->.
  { unfold redact_field. destruct (isset a f) eqn:Hset; [|done].
    apply array_set_same, Hdone; [apply list_elem_of_here | done]. }
  apply IH. intros g Hg. apply Hdone. by right.
Qed.

(** X18.  Redaction is idempotent: sanitising an already sanitised map
    returns it unchanged, for the recorder's [sanitizeValues] and for the
    middleware's [sanitizeRequestData]. *)
Theorem sanitizeValues_idempotent (values : php_array) :
  sanitizeValues (sanitizeValues values) = sanitizeValues values
  ∧ AuditLogger.sanitizeRequestData (AuditLogger.sanitizeRequestData values)
    = AuditLogger.sanitizeRequestData values.
Proof.
  assert (Hvalues : sanitizeValues (sanitizeValues values) = sanitizeValues values).
  { unfold sanitizeValues at 1. apply redact_fields_fixed.
    intros f Hf Hset. unfold sanitizeValues in *.
    unfold isset in Hset. rewrite redact_fields_get in *.
    destruct (bool_decide (f ∈ sensitiveFields) && isset values f) eqn:Hcase; [done|].
    apply andb_false_iff in Hcase as [Hout|Hunset].
    - apply bool_decide_eq_false in Hout. by destruct Hout.
    - unfold isset in Hunset. by rewrite Hunset in Hset. }
  split; [exact Hvalues|].
  by rewrite !sanitizeRequestData_eq.
Qed.

End RedactionMore.

(** ** Path segments and the audited resource *)

Section Segments.

Import AuditLogger.

Lemma append_snoc (s : string) (c : ascii) (rest : string) :
  (s +:+ String c "") +:+ rest = s +:+ String c rest.
Proof.
  induction s as [|c' s IH]; [done|].
  change (String c' ((s +:+ String c "") +:+ rest) = String c' (s +:+ String c rest)).
  by rewrite IH.
Qed.

Lemma chars_snoc (s : string) (c : ascii) : chars (s +:+ String c "") = chars s ++ [c].
Proof.
  induction s as [|c' s IH]; [done|].
  change (c' :: chars (s +:+ String c "") = c' :: (chars s ++ [c])).
  by rewrite IH.
Qed.

Lemma append_empty (s : string) : s +:+ "" = s.
Proof.
  induction s as [|c s IH]; [done|].
  change (String c (s +:+ "") = String c s). by rewrite IH.
Qed.

Lemma explode_path_app (current a b : string) :
  explode_path current (a +:+ String "/" b)
  = explode_path current a ++ explode_path "" b.
Proof.
  revert current. induction a as [|c a IH]; intros current.
  - change ("" +:+ String "/" b) with (String "/" b). cbn [explode_path].
    by rewrite decide_True.
  - change (String c a +:+ String "/" b) with (String c (a +:+ String "/" b)).
    cbn [explode_path]. case_decide as Hc; [|apply IH].
    rewrite IH. by rewrite app_assoc.
Qed.

Lemma explode_path_single (current name : string) :
  slash_free name → current +:+ name ≠ "" →
  explode_path current name = [current +:+ name].
Proof.
  revert current. induction name as [|c name IH]; intros current Hfree Hne;
    cbn [explode_path].
  - rewrite append_empty in *. by rewrite decide_False.
  - unfold slash_free in Hfree. cbn [chars] in Hfree.
    apply not_elem_of_cons in Hfree as [Hc Hfree].
    rewrite decide_False by done.
    rewrite IH; [by rewrite append_snoc | done |].
    by rewrite append_snoc.
Qed.

Lemma explode_path_segments (current path : string) (s : string) :
  slash_free current → s ∈ explode_path current path → s ≠ "" ∧ slash_free s.
Proof.
  revert current. induction path as [|c path IH]; intros current Hcur; cbn [explode_path].
  - case_decide as Hempty; [intros Hs; by destruct (not_elem_of_nil _ Hs)|].
    by intros ->%list_elem_of_singleton.
  - case_decide as Hc.
    + rewrite elem_of_app. intros [Hs|Hs].
      * case_decide as Hempty; [by destruct (not_elem_of_nil _ Hs)|].
        by apply list_elem_of_singleton in Hs as ->.
      * apply (IH ""); [apply not_elem_of_nil | done].
    + apply IH. unfold slash_free. rewrite chars_snoc, elem_of_app.
      intros [?|Hin]; [done|]. by apply list_elem_of_singleton in Hin.
Qed.

Lemma determineResource_cases (request : Request) :
  determineResource request = "unknown"
  ∨ determineResource request ∈ segments request.
Proof.
  unfold determineResource.
  destruct (segments request) as [|first rest]; [by left|].
  case_decide as Hapi; [|right; apply list_elem_of_here].
  destruct rest as [|second rest]; [by left|]. right. right. apply list_elem_of_here.
Qed.

Lemma determineResource_nonempty (request : Request) :
  determineResource request ≠ "".
Proof.
  destruct (determineResource_cases request) as [->|Hin]; [done|].
  by apply (explode_path_segments "" (req_path request) _
              ltac:(apply not_elem_of_nil)) in Hin as [? _].
Qed.

(** X17.  The segments of a request path are its parts between slashes:
    none is empty or contains a slash, and the segments of [a/b] are those
    of [a] followed by those of [b].  The audited resource is therefore
    never the empty string; it is ['unknown'] or a segment of the path, and
    for a path [api/NAME/...] or [api/NAME] it is [NAME]. *)
Theorem determineResource_is_first_segment (request : Request) :
  (∀ s, s ∈ segments request → s ≠ "" ∧ slash_free s)
  ∧ (∀ a b, req_path request = a +:+ String "/" b →
            segments request = explode_path "" a ++ explode_path "" b)
  ∧ determineResource request ≠ ""
  ∧ (determineResource request = "unknown"
     ∨ determineResource request ∈ segments request)
  ∧ (∀ name rest,
       name ≠ "" → slash_free name →
       req_path request = "api/" +:+ name +:+ String "/" rest
       ∨ req_path request = "api/" +:+ name →
       determineResource request = name).
Proof.
  assert (Hsegments : ∀ s, s ∈ segments request → s ≠ "" ∧ slash_free s).
  { intros s Hs. by apply (explode_path_segments "" (req_path request) s
                             ltac:(apply not_elem_of_nil)). }
  split; [exact Hsegments|]. split.
  { intros a b Hpath. unfold segments. rewrite Hpath. apply explode_path_app. }
  assert (Hresource : determineResource request = "unknown"
                      ∨ determineResource request ∈ segments request).
  { unfold determineResource.
    destruct (segments request) as [|first rest]; [by left|].
    case_decide as Hapi; [|right; apply list_elem_of_here].
    destruct rest as [|second rest]; [by left|]. right. right. apply list_elem_of_here. }
  split; [|split; [exact Hresource|]].
  - destruct Hresource as [->|Hin]; [done|]. by apply Hsegments in Hin as [? _].
  - intros name rest Hname Hfree Hpath. unfold determineResource, segments.
    assert (Hapi : explode_path "" "api" = ["api"]) by reflexivity.
    destruct Hpath as [->| ->].
    + change ("api/" +:+ name +:+ String "/" rest)
        with ("api" +:+ String "/" (name +:+ String "/" rest)).
      rewrite !explode_path_app, Hapi.
      rewrite (explode_path_single "" name Hfree) by done.
      cbn [app]. by rewrite decide_True.
    + change ("api/" +:+ name) with ("api" +:+ String "/" name).
      rewrite explode_path_app, Hapi.
      rewrite (explode_path_single "" name Hfree) by done.
      cbn [app]. by rewrite decide_True.
Qed.

Lemma determineResource_is_first_segment_witness :
  determineResource ada_request = "roles"
  ∧ segments ada_request = ["api"; "roles"; "3"].
Proof.
  destruct (determineResource_is_first_segment ada_request)
    as (_ & Happ & _ & _ & Hname).
  split.
  - apply (Hname "roles" "3"); [done| |by left].
    apply (bool_decide_unpack _). vm_compute. exact I.
  - rewrite (Happ "api" "roles/3" eq_refl). reflexivity.
Defined.

End Segments.

(** ** What the audit middleware records *)

Section MiddlewareEntry.

Import AuditLogger.

Variable intval : value → Z.

(** X16.  The entry the audit middleware writes for a request it logs has
    the action [create], [update] or [delete], the authenticated principal
    as acting user, the first path segment (after [api]) as resource, the
    request's address and user agent, no old snapshot, and as new snapshot
    the request input with every set top-level sensitive value replaced by
    the marker. *)
Theorem logAction_records_sanitized_request (request : Request)
    (response : Response) (d : Database) :
  shouldLog request response = true →
  ∃ entry new_values,
    logAction intval request response d
    = Return entry (set_audit_logs (audit_logs d ++ [entry]) d)
    ∧ al_action entry ∈ ["create"; "update"; "delete"]
    ∧ is_Some (al_user_id entry) ∧ al_user_id entry = req_user request
    ∧ al_resource entry = determineResource request ∧ al_resource entry ≠ ""
    ∧ al_ip_address entry = req_ip request
    ∧ al_user_agent entry = req_user_agent request
    ∧ al_old_values entry = None
    ∧ al_new_values entry = Some new_values
    ∧ redacted_from (req_all request) new_values.
Proof.
  intros (Huser & Hmethod & _)%shouldLog_spec.
  do 2 eexists. split; [reflexivity|].
  cbn [al_action al_user_id al_resource al_ip_address al_user_agent al_old_values
       al_new_values AuditLogService.ld_user_id AuditLogService.ld_old_values
       AuditLogService.ld_new_values AuditLogService.ld_ip_address
       AuditLogService.ld_user_agent AuditLogService.or_else].
  split.
  { unfold determineAction, loggableMethods in *.
    rewrite !elem_of_cons in Hmethod.
    destruct Hmethod as [->|[->|[->|[->|Hnil]]]];
      [| | | |by destruct (not_elem_of_nil _ Hnil)]; cbn;
      rewrite !elem_of_cons; tauto. }
  destruct Huser as [user Huser]. rewrite Huser.
  split; [by eexists|]. split; [done|]. split; [done|].
  split; [apply determineResource_nonempty|].
  split; [by destruct (req_ip request)|].
  split; [by destruct (req_user_agent request)|].
  split; [done|]. split; [done|].
  rewrite sanitizeRequestData_eq. apply sanitizeValues_redacted_from.
Qed.

End MiddlewareEntry.

Lemma logAction_records_sanitized_request_witness :
  ∃ entry,
    AuditLogger.logAction example_intval ada_request
      (json [("success", VBool true)] 200) empty_database
    = Return entry (set_audit_logs [entry] empty_database)
    ∧ al_action entry = "delete" ∧ al_resource entry = "roles"
    ∧ al_new_values entry
      = Some [("password", VStr "[REDACTED]"); ("reason", VStr "cleanup")].
Proof.
  destruct (logAction_records_sanitized_request example_intval ada_request
              (json [("success", VBool true)] 200) empty_database eq_refl)
    as (entry & new_values & Hrun & _).
  exists entry. split; [exact Hrun|].
  pose proof Hrun as Hcalc. vm_compute in Hcalc. injection Hcalc as <- _.
  repeat split; vm_compute; reflexivity.
Defined.

(** ** The dashboard's permission checks, continued *)

Section DashboardChecks.

Import AuthStore.

Lemma includes_spec (xs : list string) (x : string) : includes xs x = true ↔ x ∈ xs.
Proof. unfold includes. apply bool_decide_eq_true. Qed.

Lemma hasAnyPermission_spec (s : AuthState) (required : list string) :
  hasAnyPermission s required = true ↔ ∃ p, p ∈ required ∧ p ∈ permissions s.
Proof.
  unfold hasAnyPermission. rewrite existsb_exists. split.
  - intros (p & Hp & Hheld). exists p. split; [by apply list_elem_of_In|].
    by apply includes_spec.
  - intros (p & Hp & Hheld). exists p. split; [by apply list_elem_of_In|].
    by apply includes_spec.
Qed.

Lemma hasAllPermissions_spec (s : AuthState) (required : list string) :
  hasAllPermissions s required = true ↔ ∀ p, p ∈ required → p ∈ permissions s.
Proof.
  unfold hasAllPermissions. rewrite forallb_forall. split.
  - intros Hall p Hp. apply includes_spec, Hall. by apply list_elem_of_In.
  - intros Hall p Hp. apply includes_spec, Hall. by apply list_elem_of_In.
Qed.

Lemma permission_list_helper (s : AuthState) (required : list string) :
  required ≠ [] → hasAllPermissions s required = true →
  hasAnyPermission s required = true.
Proof.
  intros Hne Hall. apply hasAnyPermission_spec.
  destruct required as [|p rest]; [done|].
  exists p. split; [apply list_elem_of_here|].
  apply (proj1 (hasAllPermissions_spec s (p :: rest)) Hall), list_elem_of_here.
Qed.

(** X19.  [hasAnyPermission] is true exactly when some listed permission
    is held and [hasAllPermissions] exactly when every listed permission is
    held; on a non-empty list the second implies the first, on a one-element
    list both coincide with [hasPermission], and after logout no permission
    is held and no list satisfies [hasAnyPermission]. *)
Theorem permission_list_checks (s : AuthState) (required : list string) :
  (hasAnyPermission s required = true ↔ ∃ p, p ∈ required ∧ p ∈ permissions s)
  ∧ (hasAllPermissions s required = true ↔ ∀ p, p ∈ required → p ∈ permissions s)
  ∧ (required ≠ [] → hasAllPermissions s required = true →
     hasAnyPermission s required = true)
  ∧ (∀ p, hasAnyPermission s [p] = hasPermission s p
          ∧ hasAllPermissions s [p] = hasPermission s p)
  ∧ (∀ p, hasPermission Login.logged_out p = false)
  ∧ hasAnyPermission Login.logged_out required = false.
Proof.
  split; [apply hasAnyPermission_spec|]. split; [apply hasAllPermissions_spec|].
  split; [|split; [|split]].
  - apply permission_list_helper.
  - intros p. unfold hasAnyPermission, hasAllPermissions, hasPermission.
    cbn [existsb forallb]. by rewrite orb_false_r, andb_true_r.
  - intros p. unfold hasPermission, includes, Login.logged_out. cbn [permissions].
    apply bool_decide_eq_false_2, not_elem_of_nil.
  - apply not_true_iff_false. intros (p & _ & Hp)%hasAnyPermission_spec.
    by destruct (not_elem_of_nil _ Hp).
Qed.

Lemma permission_list_checks_witness :
  hasAnyPermission (Login.logged_in ["users.view"]) ["users.view"; "roles.view"] = true
  ∧ hasAllPermissions (Login.logged_in ["users.view"]) ["users.view"; "roles.view"]
    = false.
Proof.
  destruct (permission_list_checks (Login.logged_in ["users.view"])
              ["users.view"; "roles.view"]) as (Hany & Hall & _).
  split.
  - apply Hany. exists "users.view". split; apply list_elem_of_here.
  - apply not_true_iff_false. intros Hheld.
    pose proof (proj1 Hall Hheld "roles.view") as Hin.
    assert (Hlisted : "roles.view" ∈ ["users.view"; "roles.view"])
      by (apply (bool_decide_unpack _); vm_compute; exact I).
    apply Hin in Hlisted. cbn in Hlisted.
    apply list_elem_of_singleton in Hlisted. discriminate Hlisted.
Defined.

(** X20.  Access decisions of the guards are monotone: a user who holds
    every permission another user holds is granted every access the other
    is granted, and whatever is granted when all listed permissions are
    required is also granted when any of them suffices. *)
Theorem hasAccess_monotone (s s' : AuthState) (permission : option string)
    (required : option (list string)) (requireAll : bool) :
  ((∀ p, p ∈ permissions s → p ∈ permissions s') →
   hasAccess s permission required requireAll = true →
   hasAccess s' permission required requireAll = true)
  ∧ (hasAccess s permission required true = true →
     hasAccess s permission required false = true).
Proof.
  assert (Hlist : ∀ strict : bool,
    (∀ p, p ∈ permissions s → p ∈ permissions s') →
    match required with
    | Some (q :: qs) =>
        if strict then hasAllPermissions s (q :: qs) else hasAnyPermission s (q :: qs)
    | _ => true
    end = true →
    match required with
    | Some (q :: qs) =>
        if strict then hasAllPermissions s' (q :: qs) else hasAnyPermission s' (q :: qs)
    | _ => true
    end = true).
  { intros strict Hsub. destruct required as [[|q qs]|]; [done| |done].
    destruct strict.
    - rewrite !hasAllPermissions_spec. intros Hall p Hp. by apply Hsub, Hall.
    - rewrite !hasAnyPermission_spec. intros (p & Hp & Hheld). eauto. }
  split.
  - intros Hsub. unfold hasAccess.
    destruct permission as [p|]; [|by apply Hlist].
    case_decide; [|by apply Hlist].
    unfold hasPermission. rewrite !includes_spec. apply Hsub.
  - unfold hasAccess.
    assert (Hweaker :
      match required with
      | Some (q :: qs) => hasAllPermissions s (q :: qs)
      | _ => true
      end = true →
      match required with
      | Some (q :: qs) => hasAnyPermission s (q :: qs)
      | _ => true
      end = true).
    { destruct required as [[|q qs]|]; [done| |done].
      intros Hall. by apply (permission_list_helper s (q :: qs)). }
    destruct permission as [p|]; [|exact Hweaker]. by case_decide.
Qed.

Lemma hasAccess_monotone_witness :
  hasAccess (Login.logged_in ["users.view"; "roles.view"]) None
    (Some ["users.view"; "roles.view"]) true = true
  ∧ hasAccess (Login.logged_in ["users.view"; "roles.view"; "roles.edit"]) None
      (Some ["users.view"; "roles.view"]) true = true
  ∧ hasAccess (Login.logged_in ["users.view"; "roles.view"]) None
      (Some ["users.view"; "roles.view"]) false = true.
Proof.
  destruct (hasAccess_monotone (Login.logged_in ["users.view"; "roles.view"])
              (Login.logged_in ["users.view"; "roles.view"; "roles.edit"]) None
              (Some ["users.view"; "roles.view"]) true) as [Hmore Hweaker].
  split; [reflexivity|]. split.
  - apply Hmore; [|reflexivity]. intros p Hp. cbn in *.
    rewrite !elem_of_cons in *. tauto.
  - apply Hweaker. reflexivity.
Defined.

End DashboardChecks.

(** ** The sidebar *)

Section SidebarItems.

Import Sidebar.

Lemma filter_sublist {A : Type} (f : A → bool) (l : list A) :
  sublist (List.filter f l) l.
Proof.
  induction l as [|a l IH]; cbn [List.filter]; [constructor|].
  destruct (f a); by constructor.
Qed.

(** X21.  The sidebar shows the navigation items in their original order,
    an item being shown exactly when it requires no permission or the user
    holds the required one; a user who holds more permissions sees at least
    the same items, and after logout only the items without a requirement
    are left (of the default items, the dashboard link). *)
Theorem filterNavItemsByPermission_shows_permitted (items : list NavItem)
    (s : AuthStore.AuthState) :
  let visible := filterNavItemsByPermission items (AuthStore.hasPermission s) in
  sublist visible items
  ∧ (∀ item, item ∈ visible
             ↔ item ∈ items
               ∧ (permission item = None
                  ∨ ∃ p, permission item = Some p ∧ p ∈ AuthStore.permissions s))
  ∧ (∀ s', (∀ p, p ∈ AuthStore.permissions s → p ∈ AuthStore.permissions s') →
           ∀ item, item ∈ visible →
                   item ∈ filterNavItemsByPermission items (AuthStore.hasPermission s'))
  ∧ (∀ item, item ∈ filterNavItemsByPermission items
                      (AuthStore.hasPermission Login.logged_out)
             ↔ item ∈ items ∧ permission item = None)
  ∧ label <$> filterNavItemsByPermission defaultNavItems
                (AuthStore.hasPermission Login.logged_out) = ["Dashboard"].
Proof.
  assert (Hshown : ∀ s0 item,
    item ∈ filterNavItemsByPermission items (AuthStore.hasPermission s0)
    ↔ item ∈ items
      ∧ (permission item = None
         ∨ ∃ p, permission item = Some p ∧ p ∈ AuthStore.permissions s0)).
  { intros s0 item. unfold filterNavItemsByPermission.
    rewrite !list_elem_of_In, filter_In, <- list_elem_of_In. unfold shown.
    destruct (permission item) as [p|].
    - unfold AuthStore.hasPermission. rewrite includes_spec. split.
      + intros [? ?]. split; [done|]. right. eauto.
      + intros [? [?|(q & [= <-] & ?)]]; done.
    - split; [intros [? _]; split; [done | by left] | by intros [? _]]. }
  cbv zeta. split; [apply filter_sublist|]. split; [apply Hshown|].
  split; [|split; [|reflexivity]].
  - intros s' Hsub item. rewrite !Hshown.
    intros [Hitem [Hnone|(p & Hp & Hheld)]]; split; try done; [by left|].
    right. exists p. split; [done | by apply Hsub].
  - intros item. rewrite Hshown. split.
    + intros [Hitem [Hnone|(p & _ & Hheld)]]; [done|].
      by destruct (not_elem_of_nil _ Hheld).
    + intros [Hitem Hnone]. split; [done | by left].
Qed.

Lemma filterNavItemsByPermission_shows_permitted_witness :
  label <$> filterNavItemsByPermission defaultNavItems
              (AuthStore.hasPermission (Login.logged_in ["roles.view"]))
  = ["Dashboard"; "Roles"]
  ∧ {| label := "Roles"; icon := "roles"; href := "/roles";
       permission := Some "roles.view" |}
    ∈ filterNavItemsByPermission defaultNavItems
        (AuthStore.hasPermission (Login.logged_in ["roles.view"; "users.view"])).
Proof.
  destruct (filterNavItemsByPermission_shows_permitted defaultNavItems
              (Login.logged_in ["roles.view"])) as (_ & Hshown & Hmore & _).
  split; [reflexivity|].
  apply (Hmore (Login.logged_in ["roles.view"; "users.view"])).
  - intros p Hp. cbn in *. rewrite !elem_of_cons in *. tauto.
  - apply Hshown. split.
    + unfold defaultNavItems. rewrite !elem_of_cons. tauto.
    + right. exists "roles.view". split; [reflexivity | apply list_elem_of_here].
Defined.

End SidebarItems.
